(** * Ballot store of the song-voting backend (src/routes/voting.py)

    A shallow embedding of the Flask handlers [submit_vote], [get_votes],
    [check_voted], [verify_social_follows] and [get_analytics] over the two
    module-level globals [votes_storage] (a dict) and [voted_ips] (a set),
    followed by the properties of the ballot store. *)

From Stdlib Require Import ZArith QArith Lia Lqa.
From stdpp Require Import gmap strings list fin_maps fin_sets.

Set Warnings "-register-all".
Local Open Scope Z_scope.

(** ** Exceptions

    The exceptions the handlers can meet; each is caught by the handler's
    [except Exception] clause.  [BadRequest] stands for whatever
    [request.get_json()] raises on a body it cannot parse. *)
Inductive pyexn :=
  | ZeroDivisionError
  | OverflowError
  | AttributeError
  | TypeError
  | KeyError
  | BadRequest.

(** ** Python floats

    CPython floats are IEEE-754 binary64 numbers.  A finite float is
    represented by the exact rational it denotes; the sign of zero is not
    tracked.  [int / int], [float * float] and [round(float, 1)] are all
    correctly rounded (to nearest, ties to even), so each is the exact
    rational result followed by [nearest]. *)
Module PyFloat.

Definition prec : Z := 53.
Definition emin : Z := -1022.
Definition emax : Z := 1024.

Inductive pyfloat :=
  | Finite (q : Q)
  | Inf (negative : bool)
  | NaN.

(** Nearest integer to [n / d] for [0 < d], ties to the even neighbour. *)
Definition round_half_even (n d : Z) : Z :=
  let fl := n / d in
  match 2 * (n mod d) ?= d with
  | Lt => fl
  | Gt => fl + 1
  | Eq => if Z.even fl then fl else fl + 1
  end.

(** The exponent [e] with [2^e <= n/d < 2^(e+1)], for [0 < n] and [0 < d]
    (lemma [binade_spec]). *)
Definition binade (n d : Z) : Z :=
  let e0 := Z.log2 n - Z.log2 d in
  let below := if 0 <=? e0 then n <? d * 2 ^ e0 else n * 2 ^ (- e0) <? d in
  if below then e0 - 1 else e0.

(** Round a rational to the nearest binary64 value; [None] when the rounded
    magnitude reaches [2^emax] (no finite float).  Below the normal range the
    spacing stays that of the binade [emin] (subnormals).  The result has a
    mantissa of at most [prec] bits (lemma [nearest_representable]). *)
Definition nearest (q : Q) : option Q :=
  let n := Qnum q in
  let d := Z.pos (Qden q) in
  if n =? 0 then Some (0 # 1)%Q else
  let a := Z.abs n in
  let s := Z.max (binade a d) emin - (prec - 1) in
  if 0 <=? s then
    let m := round_half_even a (d * 2 ^ s) in
    if 2 ^ emax <=? m * 2 ^ s then None
    else Some (Qred ((Z.sgn n * m * 2 ^ s) # 1))
  else
    let m := round_half_even (a * 2 ^ (- s)) d in
    Some (Qred ((Z.sgn n * m) # Z.to_pos (2 ^ (- s)))).

Definition float_of_int (z : Z) : pyexn + pyfloat :=
  match nearest (z # 1) with
  | Some q => inr (Finite q)
  | None => inl OverflowError
  end.

(** [a / b] on ints: true division, correctly rounded. *)
Definition int_true_div (a b : Z) : pyexn + pyfloat :=
  if b =? 0 then inl ZeroDivisionError
  else match nearest (Qmake (Z.sgn b * a) (Z.to_pos (Z.abs b))) with
       | Some q => inr (Finite q)
       | None => inl OverflowError
       end.

Definition Qsign_neg (q : Q) : bool := Qnum q <? 0.

(** [x * y] on floats: overflow gives an infinity, never an exception. *)
Definition float_mul (x y : pyfloat) : pyfloat :=
  match x, y with
  | NaN, _ | _, NaN => NaN
  | Finite p, Finite q =>
      match nearest (p * q) with
      | Some r => Finite r
      | None => Inf (xorb (Qsign_neg p) (Qsign_neg q))
      end
  | Inf sx, Inf sy => Inf (xorb sx sy)
  | Inf sx, Finite q | Finite q, Inf sx =>
      if Qnum q =? 0 then NaN else Inf (xorb sx (Qsign_neg q))
  end.

(** The number of tenths nearest to [q], ties to even. *)
Definition round_tenths (q : Q) : Z :=
  round_half_even (10 * Qnum q) (Z.pos (Qden q)).

(** [round(x, 1)] on a float: the decimal with one digit after the point
    nearest to the exact value of [x] (ties to even), converted back to
    the nearest float.  Infinities and NaN are returned as they are. *)
Definition float_round1 (x : pyfloat) : pyexn + pyfloat :=
  match x with
  | Finite q =>
      match nearest (round_tenths q # 10) with
      | Some r => inr (Finite r)
      | None => inl OverflowError
      end
  | _ => inr x
  end.

End PyFloat.

Import PyFloat.

(** ** Python values received and produced by the handlers *)

(** The result of [request.get_json()]: [JNull] is [None], [JObj] a dict
    (each key bound once, as in a parsed dict), [JArr] a list. *)
Inductive json :=
  | JNull
  | JBool (b : bool)
  | JInt (z : Z)
  | JFloat (f : pyfloat)
  | JStr (s : string)
  | JArr (items : list json)
  | JObj (fields : list (string * json)).

(** [bool(v)], as tested by [if not v]. *)
Definition truthy (v : json) : bool :=
  match v with
  | JNull => false
  | JBool b => b
  | JInt z => negb (z =? 0)
  | JFloat (Finite q) => negb (Qnum q =? 0)
  | JFloat _ => true
  | JStr s => negb (String.eqb s "")
  | JArr items => match items with [] => false | _ => true end
  | JObj fields => match fields with [] => false | _ => true end
  end.

Fixpoint assoc (key : string) (fields : list (string * json)) : option json :=
  match fields with
  | [] => None
  | (k, v) :: rest => if String.eqb k key then Some v else assoc key rest
  end.

(** [obj.get(key, default)]: only a dict has [get]. *)
Definition py_get (obj : json) (key : string) (default : json) : pyexn + json :=
  match obj with
  | JObj fields => inr (match assoc key fields with Some v => v | None => default end)
  | _ => inl AttributeError
  end.

(** How a value behaves as a key of [votes_storage], whose keys are ints:
    numbers and booleans that compare equal to an int hash like it, lists
    and dicts cannot be hashed, anything else equals no int. *)
Inductive dict_key :=
  | IntKey (k : Z)
  | OtherKey
  | Unhashable.

Definition as_key (v : json) : dict_key :=
  match v with
  | JInt z => IntKey z
  | JBool b => IntKey (if b then 1 else 0)
  | JFloat (Finite q) =>
      let r := Qred q in
      if Z.pos (Qden r) =? 1 then IntKey (Qnum r) else OtherKey
  | JFloat _ | JStr _ | JNull => OtherKey
  | JArr _ | JObj _ => Unhashable
  end.

(** A number stored in the analytics: the int [0] or a float. *)
Inductive pynum :=
  | PyInt (z : Z)
  | PyFloat (f : pyfloat).

(** [round(x, 1)]: an int is returned unchanged. *)
Definition py_round1 (x : pynum) : pyexn + pynum :=
  match x with
  | PyInt z => inr (PyInt z)
  | PyFloat f =>
      match float_round1 f with
      | inr r => inr (PyFloat r)
      | inl e => inl e
      end
  end.

Record analytics := {
  total_votes : Z;
  vote_counts : gmap Z Z;
  vote_percentages : gmap Z pynum;
  total_participants : Z;
  videos_count : Z
}.

(** The JSON bodies built by [jsonify] on the success paths. *)
Inductive payload :=
  | VoteSubmitted (new_vote_count : Z)
  | Votes (votes : gmap Z Z) (total : Z)
  | HasVoted (has_voted : bool)
  | Verified (verified_platforms : json)
  | Analytics (a : analytics).

(** [Success] is status 200, [Err400 msg] is [{'error': msg}, 400] and
    [Err500 e] is [{'error': str(e)}, 500] of the [except] clause. *)
Inductive response :=
  | Success (body : payload)
  | Err400 (error : string)
  | Err500 (e : pyexn).

Definition VideoIdRequired : response := Err400 "Video ID is required".
Definition MissingRequirement (platform : string) : response :=
  Err400 (String.append "Must follow on " platform).
Definition AlreadyVoted : response := Err400 "You have already voted".
Definition InvalidItem : response := Err400 "Invalid video ID".

(** The part of the Flask request the handlers read; [get_json = None]
    when [request.get_json()] raises. *)
Record request := {
  get_json : option json;
  HTTP_X_FORWARDED_FOR : option string;
  REMOTE_ADDR : option string
}.

(** ** The module-level state *)

Record store := {
  votes_storage : gmap Z Z;
  voted_ips : gset string
}.

Definition initial_votes : gmap Z Z :=
  <[1:=0]> (<[2:=0]> (<[3:=0]> (<[4:=0]> (<[5:=0]> (<[6:=0]> ∅))))).

Definition initial_store : store :=
  {| votes_storage := initial_votes; voted_ips := ∅ |}.

(** ** Handlers as computations over the store that may raise *)

Definition M (A : Type) : Type := store → (pyexn + A) * store.

Definition ret {A} (a : A) : M A := λ s, (inr a, s).
Definition raise {A} (e : pyexn) : M A := λ s, (inl e, s).
Definition bind {A B} (m : M A) (k : A → M B) : M B :=
  λ s, match m s with
       | (inr a, s') => k a s'
       | (inl e, s') => (inl e, s')
       end.
Definition lift {A} (r : pyexn + A) : M A :=
  match r with inr a => ret a | inl e => raise e end.
Definition read_votes : M (gmap Z Z) := λ s, (inr (votes_storage s), s).
Definition read_voted : M (gset string) := λ s, (inr (voted_ips s), s).
Definition write_votes (m : gmap Z Z) : M unit :=
  λ s, (inr tt, {| votes_storage := m; voted_ips := voted_ips s |}).
Definition write_voted (v : gset string) : M unit :=
  λ s, (inr tt, {| votes_storage := votes_storage s; voted_ips := v |}).

Notation "'let*' x ':=' m 'in' k" := (bind m (λ x, k))
  (at level 10, x name, m at level 100, k at level 200).
Notation "m ';;' k" := (bind m (λ _, k))
  (at level 100, k at level 200, right associativity).

(** [try: ... except Exception as e: return jsonify({'error': str(e)}), 500] *)
Definition try_except (body : M response) (s : store) : response * store :=
  match body s with
  | (inr r, s') => (r, s')
  | (inl e, s') => (Err500 e, s')
  end.

(** [key in votes_storage] *)
Definition dict_contains (v : json) : M bool :=
  let* votes := read_votes in
  match as_key v with
  | IntKey k => ret (bool_decide (is_Some (votes !! k)))
  | OtherKey => ret false
  | Unhashable => raise TypeError
  end.

(** [votes_storage[key]] *)
Definition dict_getitem (v : json) : M Z :=
  let* votes := read_votes in
  match as_key v with
  | IntKey k => match votes !! k with Some n => ret n | None => raise KeyError end
  | OtherKey => raise KeyError
  | Unhashable => raise TypeError
  end.

(** [votes_storage[key] += 1]: the value is read, one is added and the sum
    is stored under the key already present. *)
Definition dict_increment (v : json) : M unit :=
  let* n := dict_getitem v in
  let* votes := read_votes in
  match as_key v with
  | IntKey k => write_votes (<[k:=n + 1]> votes)
  | _ => raise TypeError
  end.

(** [voted_ips.add(h)] *)
Definition set_add (h : string) : M unit :=
  let* voted := read_voted in write_voted ({[h]} ∪ voted).

Definition request_get_json (req : request) : pyexn + json :=
  match get_json req with Some data => inr data | None => inl BadRequest end.

Definition get_client_ip (req : request) : pyexn + string :=
  match HTTP_X_FORWARDED_FOR req with
  | None => match REMOTE_ADDR req with
            | Some addr => inr addr
            | None => inl KeyError
            end
  | Some forwarded => inr forwarded
  end.

Definition required_platforms : list string := ["instagram"; "linkedin"; "twitter"].

(** The [for platform in required_platforms] loop: the first platform whose
    flag is not truthy, if any. *)
Fixpoint first_unmet (social_follows : json) (platforms : list string)
  : pyexn + option string :=
  match platforms with
  | [] => inr None
  | platform :: rest =>
      match py_get social_follows platform (JBool false) with
      | inl e => inl e
      | inr flag => if truthy flag then first_unmet social_follows rest
                    else inr (Some platform)
      end
  end.

(** [sum(votes_storage.values())] *)
Definition sum_values (m : gmap Z Z) : Z := map_fold (λ _ v acc, v + acc) 0 m.

(** One entry of the [vote_percentages] loop:
    [round((count / total_votes * 100) if total_votes > 0 else 0, 1)]. *)
Definition percentage_of (count total : Z) : pyexn + pynum :=
  if 0 <? total then
    match int_true_div count total with
    | inl e => inl e
    | inr ratio =>
        match float_of_int 100 with
        | inl e => inl e
        | inr hundred => py_round1 (PyFloat (float_mul ratio hundred))
        end
    end
  else py_round1 (PyInt 0).

(** The loop over [votes_storage.items()], filling [vote_percentages].  The
    entries can only raise [OverflowError], so the order in which the items
    are visited does not show in the result. *)
Definition percentages (votes : gmap Z Z) (total : Z) : pyexn + gmap Z pynum :=
  map_fold (λ video_id count acc,
              match acc with
              | inl e => inl e
              | inr filled =>
                  match percentage_of count total with
                  | inl e => inl e
                  | inr p => inr (<[video_id:=p]> filled)
                  end
              end) (inr ∅) votes.

Section Handlers.

(** [hashlib.sha256(ip.encode()).hexdigest()] of the Python library. *)
Variable sha256_hexdigest : string → string.

Definition hash_ip (ip : string) : string := sha256_hexdigest ip.

(** POST /vote *)
Definition submit_vote_body (req : request) : M response :=
  let* data := lift (request_get_json req) in
  let* video_id := lift (py_get data "video_id" JNull) in
  let* social_follows := lift (py_get data "social_follows" (JObj [])) in
  if negb (truthy video_id) then ret (Err400 "Video ID is required") else
  let* unmet := lift (first_unmet social_follows required_platforms) in
  match unmet with
  | Some platform => ret (Err400 (String.append "Must follow on " platform))
  | None =>
      let* client_ip := lift (get_client_ip req) in
      let ip_hash := hash_ip client_ip in
      let* voted := read_voted in
      if bool_decide (ip_hash ∈ voted) then ret (Err400 "You have already voted") else
      let* known := dict_contains video_id in
      if negb known then ret (Err400 "Invalid video ID") else
      dict_increment video_id ;;
      set_add ip_hash ;;
      let* new_vote_count := dict_getitem video_id in
      ret (Success (VoteSubmitted new_vote_count))
  end.

Definition submit_vote (req : request) : store → response * store :=
  try_except (submit_vote_body req).

(** GET /votes *)
Definition get_votes : store → response * store :=
  try_except (
    let* votes := read_votes in
    ret (Success (Votes votes (sum_values votes)))).

(** POST /check-voted *)
Definition check_voted (req : request) : store → response * store :=
  try_except (
    let* client_ip := lift (get_client_ip req) in
    let ip_hash := hash_ip client_ip in
    let* voted := read_voted in
    ret (Success (HasVoted (bool_decide (ip_hash ∈ voted))))).

(** POST /social-verify *)
Definition verify_social_follows (req : request) : store → response * store :=
  try_except (
    let* data := lift (request_get_json req) in
    let* platforms := lift (py_get data "platforms" (JObj [])) in
    ret (Success (Verified platforms))).

(** GET /analytics *)
Definition get_analytics : store → response * store :=
  try_except (
    let* votes := read_votes in
    let total := sum_values votes in
    let* vote_percentages := lift (percentages votes total) in
    let* voted := read_voted in
    ret (Success (Analytics {|
      total_votes := total;
      vote_counts := votes;
      vote_percentages := vote_percentages;
      total_participants := Z.of_nat (size voted);
      videos_count := Z.of_nat (size votes)
    |}))).

(** ** Sequences of requests *)

Inductive call :=
  | SubmitVote (req : request)
  | GetVotes
  | CheckVoted (req : request)
  | VerifySocial (req : request)
  | GetAnalytics.

Definition dispatch (c : call) : store → response * store :=
  match c with
  | SubmitVote req => submit_vote req
  | GetVotes => get_votes
  | CheckVoted req => check_voted req
  | VerifySocial req => verify_social_follows req
  | GetAnalytics => get_analytics
  end.

(** Serve the calls one after another; the responses come back in order. *)
Fixpoint serve (calls : list call) (s : store) : list response * store :=
  match calls with
  | [] => ([], s)
  | c :: rest =>
      let '(r, s1) := dispatch c s in
      let '(rs, s2) := serve rest s1 in
      (r :: rs, s2)
  end.

Definition state_after (calls : list call) : store := snd (serve calls initial_store).

(** The identity [submit_vote] and [check_voted] derive for a request. *)
Definition client_identity (req : request) : option string :=
  match get_client_ip req with
  | inr client_ip => Some (hash_ip client_ip)
  | inl _ => None
  end.

(** ** Overlapping requests

    The handler takes no lock and the two globals are plain module
    variables, so a request served by another thread may run between any
    two statements of [submit_vote].  A thread is modelled by the statement
    it is about to execute; one step executes that statement (statements
    are taken as indivisible, which only removes interleavings). *)
Inductive thread :=
  | AtEntry (req : request)
  | AtMembership (video_id : json) (ip_hash : string)
  | AtLookup (video_id : json) (ip_hash : string)
  | AtIncrement (video_id : json) (ip_hash : string)
  | AtInsert (video_id : json) (ip_hash : string)
  | AtReply (video_id : json)
  | Done (r : response).

(** The statements before [if ip_hash in voted_ips], which read no global:
    either the response already returned, or the locals [video_id] and
    [ip_hash]. *)
Definition entry_checks (req : request) : pyexn + (response + json * string) :=
  match request_get_json req with
  | inl e => inl e
  | inr data =>
  match py_get data "video_id" JNull with
  | inl e => inl e
  | inr video_id =>
  match py_get data "social_follows" (JObj []) with
  | inl e => inl e
  | inr social_follows =>
  if negb (truthy video_id) then inr (inl (Err400 "Video ID is required")) else
  match first_unmet social_follows required_platforms with
  | inl e => inl e
  | inr (Some platform) =>
      inr (inl (Err400 (String.append "Must follow on " platform)))
  | inr None =>
  match get_client_ip req with
  | inl e => inl e
  | inr client_ip => inr (inr (video_id, hash_ip client_ip))
  end end end end end.

(** Run one statement; an exception ends the request with status 500. *)
Definition statement {A} (m : M A) (next : A → thread) (s : store) : thread * store :=
  match m s with
  | (inr a, s') => (next a, s')
  | (inl e, s') => (Done (Err500 e), s')
  end.

Definition thread_step (t : thread) (s : store) : thread * store :=
  match t with
  | AtEntry req =>
      match entry_checks req with
      | inl e => (Done (Err500 e), s)
      | inr (inl r) => (Done r, s)
      | inr (inr (video_id, ip_hash)) => (AtMembership video_id ip_hash, s)
      end
  | AtMembership video_id ip_hash =>
      statement read_voted
        (λ voted, if bool_decide (ip_hash ∈ voted)
                  then Done (Err400 "You have already voted")
                  else AtLookup video_id ip_hash) s
  | AtLookup video_id ip_hash =>
      statement (dict_contains video_id)
        (λ known : bool, if negb known then Done (Err400 "Invalid video ID")
                  else AtIncrement video_id ip_hash) s
  | AtIncrement video_id ip_hash =>
      statement (dict_increment video_id) (λ _, AtInsert video_id ip_hash) s
  | AtInsert video_id ip_hash =>
      statement (set_add ip_hash) (λ _, AtReply video_id) s
  | AtReply video_id =>
      statement (dict_getitem video_id)
        (λ new_vote_count, Done (Success (VoteSubmitted new_vote_count))) s
  | Done r => (Done r, s)
  end.

(** A schedule names, step by step, the thread that runs next. *)
Fixpoint run_schedule (schedule : list nat) (pool : list thread) (s : store)
  : list thread * store :=
  match schedule with
  | [] => (pool, s)
  | i :: rest =>
      match pool !! i with
      | Some t =>
          let '(t', s') := thread_step t s in
          run_schedule rest (<[i:=t']> pool) s'
      | None => run_schedule rest pool s
      end
  end.

End Handlers.

Definition is_vote_success (r : response) : bool :=
  match r with Success (VoteSubmitted _) => true | _ => false end.

Definition thread_succeeded (t : thread) : bool :=
  match t with Done r => is_vote_success r | _ => false end.

(** Number of threads that finished with a recorded vote. *)
Definition succeeded (pool : list thread) : nat :=
  length (List.filter thread_succeeded pool).

(** [json.loads('{"video_id": ..., "social_follows": {all three true}}')] *)
Definition all_follows : json :=
  JObj [("instagram", JBool true); ("linkedin", JBool true); ("twitter", JBool true)].

Definition vote_request (addr : string) (video_id social_follows : json) : request :=
  {| get_json := Some (JObj [("video_id", video_id); ("social_follows", social_follows)]);
     HTTP_X_FORWARDED_FOR := None;
     REMOTE_ADDR := Some addr |}.

(** A stand-in for the digest, used only to evaluate the handlers on sample
    requests; the theorems hold for every digest function. *)
Definition sample_digest (ip : string) : string := String.append "sha256:" ip.

(** ** Vocabulary of the statements *)

(** [social_follows.get(platform, False)] is truthy. *)
Definition flag_met (social_follows : json) (platform : string) : bool :=
  match py_get social_follows platform (JBool false) with
  | inr flag => truthy flag
  | inl _ => false
  end.

Definition all_flags_met (social_follows : json) : bool :=
  forallb (flag_met social_follows) required_platforms.

(** A flag of the dict [fields] is unmet when it is absent or not truthy. *)
Definition unmet (fields : list (string * json)) (platform : string) : Prop :=
  assoc platform fields = None ∨
  ∃ flag, assoc platform fields = Some flag ∧ truthy flag = false.

(** The item [video_id] names is registered: it is a key of the dict. *)
Definition registered (video_id : json) (votes : gmap Z Z) : Prop :=
  ∃ k, as_key video_id = IntKey k ∧ is_Some (votes !! k).

Definition failed (r : response) : Prop :=
  match r with Success _ => False | _ => True end.

(** A vote that passes every check on the request itself: a dict with a
    truthy, registered [video_id] and all required flags met. *)
Definition well_formed_vote (req : request) (votes : gmap Z Z) : Prop :=
  ∃ data video_id follows,
    request_get_json req = inr data ∧
    py_get data "video_id" JNull = inr video_id ∧
    truthy video_id = true ∧
    registered video_id votes ∧
    py_get data "social_follows" (JObj []) = inr follows ∧
    all_flags_met follows = true.

(** A vote recorded for key [k] by identity [h]. *)
Definition records (s s' : store) (k : Z) (h : string) (r : response) : Prop :=
  ∃ n, votes_storage s !! k = Some n ∧
       (h ∉ voted_ips s) ∧
       r = Success (VoteSubmitted (n + 1)) ∧
       s' = {| votes_storage := <[k:=n + 1]> (votes_storage s);
               voted_ips := {[h]} ∪ voted_ips s |}.

(** The store invariant: counters are non-negative and add up to the
    number of identities that voted. *)
Definition consistent (s : store) : Prop :=
  (∀ k n, votes_storage s !! k = Some n → 0 ≤ n) ∧
  sum_values (votes_storage s) = Z.of_nat (size (voted_ips s)).

(** The exact value of [count / total * 100], before any rounding. *)
Definition exact_percentage (count total : Z) : Q := (100 * count) # Z.to_pos total.

(** Half the spacing of the floats below [2^(b+1)]: the largest rounding
    error of [nearest] there. *)
Definition half_ulp (b : Z) : Q := 1 # Z.to_pos (2 ^ (53 - b)).

Definition percentage_in_range (p : pynum) : Prop :=
  match p with
  | PyInt z => 0 ≤ z ≤ 100
  | PyFloat (Finite x) => (0 <= x)%Q ∧ (x <= 100 # 1)%Q
  | PyFloat _ => False
  end.

(** The rational [m * 2^s]. *)
Definition scaled (m s : Z) : Q :=
  if 0 <=? s then (m * 2 ^ s) # 1 else m # Z.to_pos (2 ^ (- s)).

(** ** Vocabulary of the accounting properties *)

(** Number of votes answered with success. *)
Definition successes (responses : list response) : nat :=
  length (List.filter is_vote_success responses).

(** The key of [votes_storage] that the [video_id] of a request denotes. *)
Definition requested_key (req : request) : option Z :=
  match request_get_json req with
  | inr data =>
      match py_get data "video_id" JNull with
      | inr video_id =>
          match as_key video_id with IntKey k => Some k | _ => None end
      | inl _ => None
      end
  | inl _ => None
  end.

(** The requested key and the identity of a call answered [r], when the call
    is a vote and [r] a success. *)
Definition accepted_vote (digest : string → string) (c : call) (r : response)
  : option (Z * string) :=
  match c with
  | SubmitVote req =>
      if is_vote_success r then
        match requested_key req, client_identity digest req with
        | Some k, Some h => Some (k, h)
        | _, _ => None
        end
      else None
  | _ => None
  end.

(** The votes accepted while [calls] are served from [s], in order. *)
Fixpoint accepted (digest : string → string) (calls : list call) (s : store)
  : list (Z * string) :=
  match calls with
  | [] => []
  | c :: rest =>
      let '(r, s1) := dispatch digest c s in
      match accepted_vote digest c r with
      | Some vote => vote :: accepted digest rest s1
      | None => accepted digest rest s1
      end
  end.

(** Number of accepted votes for the key [k]. *)
Definition tally (k : Z) (votes : list (Z * string)) : Z :=
  Z.of_nat (length (filter (λ vote, vote.1 = k) votes)).

(** The request [req] as it arrives from the peer address [addr]. *)
Definition with_remote_addr (req : request) (addr : option string) : request :=
  {| get_json := get_json req;
     HTTP_X_FORWARDED_FOR := HTTP_X_FORWARDED_FOR req;
     REMOTE_ADDR := addr |}.

(** A vote request that carries an [X-Forwarded-For] header. *)
Definition forwarded_vote (addr forwarded : string) (video_id social_follows : json)
  : request :=
  {| get_json := Some (JObj [("video_id", video_id); ("social_follows", social_follows)]);
     HTTP_X_FORWARDED_FOR := Some forwarded;
     REMOTE_ADDR := Some addr |}.

(** Order on the numbers reported as percentages. *)
Definition percentage_le (p1 p2 : pynum) : Prop :=
  match p1, p2 with
  | PyInt a, PyInt b => a ≤ b
  | PyFloat (Finite x), PyFloat (Finite y) => (x <= y)%Q
  | _, _ => False
  end.

(** ** Vocabulary of the interleaving properties *)






(** ** The spreadsheet sink

    [get_google_sheets_client] and [save_vote_to_sheets] only talk to the
    process environment, the file system, the two Google libraries and the
    console.  What these answer is gathered in [sheets_world]; a library
    call that raises is [inl msg], with [msg] the text of the exception.
    The functions return their Python result together with the lines they
    print. *)
Section Sheets.

Variables credentials client : Type.

Record sheets_world := {
  GSPREAD_AVAILABLE : bool;
  GOOGLE_SHEETS_CREDENTIALS_PATH : option string;
  path_exists : string → bool;
  from_service_account_file : string → string + credentials;
  authorize : credentials → string + client
}.

Definition get_google_sheets_client (w : sheets_world)
  : option client * list string :=
  if negb (GSPREAD_AVAILABLE w) then (None, []) else
  match GOOGLE_SHEETS_CREDENTIALS_PATH w with
  | None => (None, [])
  | Some credentials_path =>
      if String.eqb credentials_path "" || negb (path_exists w credentials_path)
      then (None, [])
      else
        match from_service_account_file w credentials_path with
        | inl e =>
            (None, [String.append "Error initializing Google Sheets client: " e])
        | inr creds =>
            match authorize w creds with
            | inl e =>
                (None, [String.append "Error initializing Google Sheets client: " e])
            | inr sheets => (Some sheets, [])
            end
        end
  end.

(** [str(v)] of Python, as used by the f-string. *)
Variable py_str : json → string.

(** The line of the demo mode:
    [f"Vote recorded: Video {video_id}, IP Hash: {ip_hash[:8]}..., Social: {social_follows}"]. *)
Definition vote_recorded_line (video_id : json) (ip_hash : string)
    (social_follows : json) : string :=
  String.append "Vote recorded: Video "
    (String.append (py_str video_id)
       (String.append ", IP Hash: "
          (String.append (String.substring 0 8 ip_hash)
             (String.append "..., Social: " (py_str social_follows))))).

(** The lines [save_vote_to_sheets] prints; it returns [None]. *)
Definition save_vote_to_sheets (w : sheets_world) (video_id : json)
    (ip_hash : string) (social_follows : json) : list string :=
  let '(sheets, printed) := get_google_sheets_client w in
  match sheets with
  | None => printed ++ [vote_recorded_line video_id ip_hash social_follows]
  | Some _ => printed
  end.

End Sheets.

Arguments GSPREAD_AVAILABLE {credentials client} _.
Arguments GOOGLE_SHEETS_CREDENTIALS_PATH {credentials client} _.
Arguments path_exists {credentials client} _ _.
Arguments from_service_account_file {credentials client} _ _.
Arguments authorize {credentials client} _ _.
Arguments get_google_sheets_client {credentials client} _.
Arguments save_vote_to_sheets {credentials client} _ _ _ _ _.

(** * Properties *)

(** ** The outcome of [submit_vote], case by case *)

Section HandlerFacts.

Variable digest : string → string.

Ltac run_monad :=
  cbv [submit_vote try_except submit_vote_body bind lift ret raise read_voted
       read_votes write_votes write_voted dict_contains dict_getitem
       dict_increment set_add].

Lemma submit_vote_raises req e s :
  entry_checks digest req = inl e → submit_vote digest req s = (Err500 e, s).
Proof.
  unfold entry_checks. run_monad.
  destruct (request_get_json req) as [e0|data]; [congruence|].
  destruct (py_get data "video_id" JNull) as [e0|video_id]; [congruence|].
  destruct (py_get data "social_follows" (JObj [])) as [e0|follows]; [congruence|].
  destruct (negb (truthy video_id)); [discriminate|].
  destruct (first_unmet follows required_platforms) as [e0|[p|]];
    [congruence|discriminate|].
  destruct (get_client_ip req) as [e0|ip]; [congruence|discriminate].
Qed.

Lemma submit_vote_returns_early req r s :
  entry_checks digest req = inr (inl r) → submit_vote digest req s = (r, s).
Proof.
  unfold entry_checks. run_monad.
  destruct (request_get_json req) as [e0|data]; [discriminate|].
  destruct (py_get data "video_id" JNull) as [e0|video_id]; [discriminate|].
  destruct (py_get data "social_follows" (JObj [])) as [e0|follows]; [discriminate|].
  destruct (negb (truthy video_id)); [congruence|].
  destruct (first_unmet follows required_platforms) as [e0|[p|]];
    [discriminate|congruence|].
  destruct (get_client_ip req) as [e0|ip]; discriminate.
Qed.

(** Past the entry checks the request is decided by the two globals. *)
Lemma submit_vote_past_entry req video_id h s :
  entry_checks digest req = inr (inr (video_id, h)) →
  submit_vote digest req s =
    if bool_decide (h ∈ voted_ips s) then (AlreadyVoted, s)
    else match as_key video_id with
         | Unhashable => (Err500 TypeError, s)
         | OtherKey => (InvalidItem, s)
         | IntKey k =>
             match votes_storage s !! k with
             | None => (InvalidItem, s)
             | Some n =>
                 (Success (VoteSubmitted (n + 1)),
                  {| votes_storage := <[k:=n + 1]> (votes_storage s);
                     voted_ips := {[h]} ∪ voted_ips s |})
             end
         end.
Proof.
  unfold entry_checks. run_monad.
  destruct (request_get_json req) as [e0|data]; [discriminate|].
  destruct (py_get data "video_id" JNull) as [e0|vid]; [discriminate|].
  destruct (py_get data "social_follows" (JObj [])) as [e0|follows]; [discriminate|].
  destruct (negb (truthy vid)); [discriminate|].
  destruct (first_unmet follows required_platforms) as [e0|[p|]];
    [discriminate|discriminate|].
  destruct (get_client_ip req) as [e0|ip]; [discriminate|].
  intros [= -> <-]. unfold hash_ip.
  destruct (bool_decide (digest ip ∈ voted_ips s)); [reflexivity|].
  destruct (as_key video_id) as [k| |]; try reflexivity.
  destruct (votes_storage s !! k) as [n|] eqn:Hk; simpl.
  - rewrite Hk. simpl. rewrite lookup_insert_eq. reflexivity.
  - reflexivity.
Qed.

End HandlerFacts.

(** ** Entry checks of well-formed vote requests *)

Section EntryFacts.

Variable digest : string → string.

Lemma first_unmet_all_met follows platforms :
  forallb (flag_met follows) platforms = true →
  first_unmet follows platforms = inr None.
Proof.
  induction platforms as [|p ps IH]; simpl; [reflexivity|].
  unfold flag_met at 1. intros [Hp Hps]%andb_prop.
  destruct (py_get follows p (JBool false)) as [e|flag]; [discriminate|].
  rewrite Hp. auto.
Qed.

Lemma flag_met_false_unmet fields p :
  flag_met (JObj fields) p = false ↔ unmet fields p.
Proof.
  unfold flag_met, unmet; simpl. destruct (assoc p fields) as [v|]; split.
  - intros H. right. eauto.
  - intros [?|(flag & [= <-] & ?)]; [discriminate|assumption].
  - auto.
  - reflexivity.
Qed.

(** On a dict the loop stops at the first platform whose flag is unmet. *)
Lemma first_unmet_found fields platforms :
  (∃ p, p ∈ platforms ∧ unmet fields p) →
  ∃ before p after,
    platforms = before ++ p :: after ∧
    (∀ q, q ∈ before → flag_met (JObj fields) q = true) ∧
    unmet fields p ∧
    first_unmet (JObj fields) platforms = inr (Some p).
Proof.
  induction platforms as [|p0 ps IH]; intros (p & Hin & Hp).
  - inversion Hin.
  - destruct (flag_met (JObj fields) p0) eqn:Hmet.
    + destruct IH as (before & q & after & -> & Hbefore & Hq & Hfirst).
      { exists p. split; [|assumption].
        apply elem_of_cons in Hin as [->|Hin]; [|assumption].
        apply flag_met_false_unmet in Hp. congruence. }
      exists (p0 :: before), q, after. repeat split; try assumption.
      * intros q' [->|Hq']%elem_of_cons; auto.
      * simpl. unfold flag_met in Hmet. simpl in Hmet. rewrite Hmet. assumption.
    + exists [], p0, ps. repeat split.
      * intros q Hq. inversion Hq.
      * apply flag_met_false_unmet. assumption.
      * simpl. unfold flag_met in Hmet. simpl in Hmet. rewrite Hmet. reflexivity.
Qed.

Lemma entry_checks_pass req data video_id follows h :
  request_get_json req = inr data →
  py_get data "video_id" JNull = inr video_id →
  truthy video_id = true →
  py_get data "social_follows" (JObj []) = inr follows →
  all_flags_met follows = true →
  client_identity digest req = Some h →
  entry_checks digest req = inr (inr (video_id, h)).
Proof.
  intros Hdata Hvid Htruthy Hfollows Hmet Hid. unfold entry_checks.
  rewrite Hdata, Hvid, Hfollows, Htruthy. cbn [negb].
  unfold all_flags_met in Hmet. rewrite (first_unmet_all_met _ _ Hmet).
  unfold client_identity in Hid.
  destruct (get_client_ip req); [discriminate|]. congruence.
Qed.

Lemma entry_checks_falsy_id req data video_id :
  request_get_json req = inr data →
  py_get data "video_id" JNull = inr video_id →
  truthy video_id = false →
  entry_checks digest req = inr (inl VideoIdRequired).
Proof.
  intros Hdata Hvid Hfalsy. unfold entry_checks.
  rewrite Hdata, Hvid, Hfalsy.
  destruct data; try discriminate. reflexivity.
Qed.

End EntryFacts.

(** ** What one request does to the store *)

Section Effects.

Variable digest : string → string.

Lemma entry_checks_truthy req video_id h :
  entry_checks digest req = inr (inr (video_id, h)) → truthy video_id = true.
Proof.
  unfold entry_checks.
  destruct (request_get_json req) as [e0|data]; [discriminate|].
  destruct (py_get data "video_id" JNull) as [e0|vid]; [discriminate|].
  destruct (py_get data "social_follows" (JObj [])) as [e0|follows]; [discriminate|].
  destruct (truthy vid) eqn:Hvid; [|discriminate]. cbn [negb].
  destruct (first_unmet follows required_platforms) as [e0|[p|]];
    [discriminate|discriminate|].
  destruct (get_client_ip req) as [e0|ip]; [discriminate|]. congruence.
Qed.

(** Only [0], [0.0] and [False] are looked up under the key [0]. *)
Lemma as_key_zero_falsy video_id :
  as_key video_id = IntKey 0 → truthy video_id = false.
Proof.
  destruct video_id as [|b|z|[q| |]|str|items|fields];
    cbn [as_key truthy]; try discriminate.
  - destruct b; [discriminate|reflexivity].
  - intros [= ->]. reflexivity.
  - cbv zeta. destruct (Z.pos (Qden (Qred q)) =? 1); [|discriminate].
    intros [= Hnum]. pose proof (Qred_correct q) as Heq.
    unfold Qeq in Heq. rewrite Hnum in Heq.
    assert (Qnum q = 0) as -> by nia. reflexivity.
Qed.

Lemma submit_vote_effect req s :
  (failed (submit_vote digest req s).1 ∧ (submit_vote digest req s).2 = s) ∨
  ∃ video_id h k,
    entry_checks digest req = inr (inr (video_id, h)) ∧
    as_key video_id = IntKey k ∧
    records s (submit_vote digest req s).2 k h (submit_vote digest req s).1.
Proof.
  destruct (entry_checks digest req) as [e|[r|[video_id h]]] eqn:Hentry.
  - left. rewrite (submit_vote_raises _ _ _ _ Hentry). split; constructor.
  - left. rewrite (submit_vote_returns_early _ _ _ _ Hentry). split; [|reflexivity].
    revert Hentry. unfold entry_checks.
    repeat (match goal with
            | |- context [match ?x with _ => _ end] => destruct x
            end; try discriminate); intros [= <-]; constructor.
  - rewrite (submit_vote_past_entry _ _ _ _ _ Hentry).
    destruct (bool_decide (h ∈ voted_ips s)) eqn:Hvoted.
    { left. split; constructor. }
    destruct (as_key video_id) as [k| |] eqn:Hkey;
      try (left; split; constructor).
    destruct (votes_storage s !! k) as [n|] eqn:Hk;
      [|left; split; constructor].
    right. exists video_id, h, k. split; [reflexivity|]. split; [exact Hkey|].
    exists n. split; [exact Hk|].
    split; [by apply bool_decide_eq_false in Hvoted|]. split; reflexivity.
Qed.

Lemma get_votes_effect s : (get_votes s).2 = s ∧
  (get_votes s).1 = Success (Votes (votes_storage s) (sum_values (votes_storage s))).
Proof. split; reflexivity. Qed.

Lemma check_voted_effect req s : (check_voted digest req s).2 = s.
Proof.
  cbv [check_voted try_except bind lift ret raise read_voted].
  destruct (get_client_ip req); reflexivity.
Qed.

Lemma verify_social_follows_effect req s : (verify_social_follows req s).2 = s.
Proof.
  cbv [verify_social_follows try_except bind lift ret raise].
  destruct (request_get_json req) as [|data]; [reflexivity|].
  destruct (py_get data "platforms" (JObj [])); reflexivity.
Qed.

Lemma get_analytics_effect s : (get_analytics s).2 = s.
Proof.
  cbv [get_analytics try_except bind lift ret raise read_votes read_voted].
  destruct (percentages _ _); reflexivity.
Qed.

(** Every call either leaves the store as it was or records one vote. *)
Lemma dispatch_effect c s :
  (dispatch digest c s).2 = s ∨
  ∃ k h, k ≠ 0 ∧ records s (dispatch digest c s).2 k h (dispatch digest c s).1.
Proof.
  destruct c as [req| |req|req|]; simpl.
  - destruct (submit_vote_effect req s) as [[_ ?]|(v & h & k & Hentry & Hkey & ?)];
      [by left|].
    right. exists k, h. split; [|assumption]. intros ->.
    apply entry_checks_truthy in Hentry. apply as_key_zero_falsy in Hkey.
    congruence.
  - left. apply get_votes_effect.
  - left. apply check_voted_effect.
  - left. apply verify_social_follows_effect.
  - left. apply get_analytics_effect.
Qed.

Lemma serve_cons c calls s :
  serve digest (c :: calls) s =
    ((dispatch digest c s).1 :: (serve digest calls (dispatch digest c s).2).1,
     (serve digest calls (dispatch digest c s).2).2).
Proof.
  simpl. destruct (dispatch digest c s) as [r s1]. simpl.
  destruct (serve digest calls s1). reflexivity.
Qed.

Lemma serve_app calls1 calls2 s :
  (serve digest (calls1 ++ calls2) s).2 =
  (serve digest calls2 (serve digest calls1 s).2).2.
Proof.
  revert s. induction calls1 as [|c calls1 IH]; intros s; [reflexivity|].
  rewrite <- app_comm_cons, !serve_cons. simpl. apply IH.
Qed.

(** An invariant of the store that every recorded vote preserves holds
    after any sequence of calls. *)
Lemma serve_invariant (P : store → Prop) calls s :
  P s →
  (∀ s k h n, P s → k ≠ 0 → votes_storage s !! k = Some n → h ∉ voted_ips s →
     P {| votes_storage := <[k:=n + 1]> (votes_storage s);
          voted_ips := {[h]} ∪ voted_ips s |}) →
  P (serve digest calls s).2.
Proof.
  intros Hs Hstep. revert s Hs.
  induction calls as [|c calls IH]; intros s Hs; [assumption|].
  rewrite serve_cons. simpl. apply IH.
  destruct (dispatch_effect c s) as [->|(k & h & Hk0 & n & Hk & Hh & _ & ->)]; auto.
Qed.

End Effects.

(** ** Rejected votes *)

(** C10. A vote whose JSON body is a dict with [video_id] absent or falsy
    ([0], [null], [""], ...) is answered 'Video ID is required' and leaves
    the store as it was, whatever the follow flags, the client identity and
    the registered items are; hence the count stored under the falsy key
    [0] never changes, from any store, even one that registers [0]. *)
Theorem falsy_video_id_rejected digest req data video_id :
  request_get_json req = inr data →
  py_get data "video_id" JNull = inr video_id →
  truthy video_id = false →
  (∀ s, submit_vote digest req s = (VideoIdRequired, s)) ∧
  (∀ calls s, votes_storage (serve digest calls s).2 !! 0 = votes_storage s !! 0).
Proof.
  intros Hdata Hvid Hfalsy. split.
  - intros s. apply submit_vote_returns_early.
    eapply entry_checks_falsy_id; eassumption.
  - intros calls s.
    apply (serve_invariant digest
             (λ s', votes_storage s' !! 0 = votes_storage s !! 0));
      [reflexivity|].
    intros s' k h n Hs' Hk _ _. simpl. by rewrite lookup_insert_ne.
Qed.

Lemma falsy_video_id_rejected_witness :
  truthy (JInt 0) = false ∧
  submit_vote sample_digest (vote_request "10.0.0.1" (JInt 0) all_follows)
    initial_store = (VideoIdRequired, initial_store).
Proof.
  split; [reflexivity|].
  apply (falsy_video_id_rejected sample_digest
           (vote_request "10.0.0.1" (JInt 0) all_follows)
           (JObj [("video_id", JInt 0); ("social_follows", all_follows)])
           (JInt 0)); reflexivity.
Defined.

(** C6. A vote that fails - with InvalidItem, MissingRequirement,
    AlreadyVoted or any other response than success - leaves the store
    unchanged: every counter and the set of identities are as before. *)
Theorem failed_vote_keeps_store digest req s r s' :
  submit_vote digest req s = (r, s') →
  failed r →
  s' = s ∧
  votes_storage s' = votes_storage s ∧
  voted_ips s' = voted_ips s.
Proof.
  intros Hrun Hfailed.
  assert (s' = s) as ->; [|auto].
  destruct (submit_vote_effect digest req s)
    as [[_ Hsame]|(v & h & k & _ & _ & n & _ & _ & Hr & _)];
    rewrite Hrun in *; simpl in *; [assumption|].
  subst r. destruct Hfailed.
Qed.

Lemma failed_vote_keeps_store_witness :
  let req := vote_request "10.0.0.1" (JInt 99) all_follows in
  let s := state_after sample_digest
             [SubmitVote (vote_request "10.0.0.2" (JInt 3) all_follows)] in
  (submit_vote sample_digest req s).1 = InvalidItem ∧
  (submit_vote sample_digest req s).2 = s.
Proof.
  intros req s. split; [vm_compute; reflexivity|].
  apply (failed_vote_keeps_store sample_digest req s InvalidItem
           (submit_vote sample_digest req s).2);
    [vm_compute; reflexivity|exact I].
Defined.

(** C7, as the code has it. An identity already in [voted_ips] that votes
    again with all required flags met and a truthy [video_id] - registered
    or not, hashable or not - is answered 'You have already voted' and the
    store is unchanged. *)
Theorem repeated_identity_rejected digest req s data video_id follows h :
  request_get_json req = inr data →
  py_get data "video_id" JNull = inr video_id →
  truthy video_id = true →
  py_get data "social_follows" (JObj []) = inr follows →
  all_flags_met follows = true →
  client_identity digest req = Some h →
  h ∈ voted_ips s →
  submit_vote digest req s = (AlreadyVoted, s).
Proof.
  intros Hdata Hvid Htruthy Hfollows Hmet Hid Hvoted.
  rewrite (submit_vote_past_entry digest req video_id h)
    by (eapply entry_checks_pass; eassumption).
  by rewrite bool_decide_eq_true_2.
Qed.

(** C4, as the code has it. A vote for a truthy, hashable [video_id] that is
    not a key of [votes_storage], sent with all required flags met by an
    identity that has not voted, is answered 'Invalid video ID' and the
    store is unchanged. *)
Theorem unregistered_item_rejected digest req s data video_id follows h :
  request_get_json req = inr data →
  py_get data "video_id" JNull = inr video_id →
  truthy video_id = true →
  as_key video_id ≠ Unhashable →
  ¬ registered video_id (votes_storage s) →
  py_get data "social_follows" (JObj []) = inr follows →
  all_flags_met follows = true →
  client_identity digest req = Some h →
  h ∉ voted_ips s →
  submit_vote digest req s = (InvalidItem, s).
Proof.
  intros Hdata Hvid Htruthy Hhash Hunreg Hfollows Hmet Hid Hfresh.
  rewrite (submit_vote_past_entry digest req video_id h)
    by (eapply entry_checks_pass; eassumption).
  rewrite bool_decide_eq_false_2 by assumption.
  destruct (as_key video_id) as [k| |] eqn:Hkey; [|reflexivity|congruence].
  destruct (votes_storage s !! k) as [n|] eqn:Hk; [|reflexivity].
  destruct Hunreg. exists k. eauto.
Qed.

(** C5, as the code has it. A vote with a truthy [video_id] whose
    [social_follows] is a dict (or absent) in which some required flag is
    absent or not truthy is answered 'Must follow on <platform>' for the
    first such platform in the order instagram, linkedin, twitter; every
    platform before it is met, an absent flag counts as a false one, and
    the store is unchanged. *)
Theorem missing_requirement_reported digest req s data video_id fields :
  request_get_json req = inr data →
  py_get data "video_id" JNull = inr video_id →
  truthy video_id = true →
  py_get data "social_follows" (JObj []) = inr (JObj fields) →
  (∃ platform, platform ∈ required_platforms ∧ unmet fields platform) →
  required_platforms = ["instagram"; "linkedin"; "twitter"] ∧
  ∃ before platform after,
    required_platforms = before ++ platform :: after ∧
    (∀ q, q ∈ before → flag_met (JObj fields) q = true) ∧
    unmet fields platform ∧
    submit_vote digest req s = (MissingRequirement platform, s).
Proof.
  intros Hdata Hvid Htruthy Hfollows Hunmet. split; [reflexivity|].
  destruct (first_unmet_found fields required_platforms Hunmet)
    as (before & p & after & Hsplit & Hbefore & Hp & Hfirst).
  exists before, p, after. repeat split; try assumption.
  apply submit_vote_returns_early. unfold entry_checks.
  rewrite Hdata, Hvid, Hfollows, Htruthy. cbn [negb].
  rewrite Hfirst. reflexivity.
Qed.

Lemma repeated_identity_rejected_witness :
  let s := state_after sample_digest
             [SubmitVote (vote_request "10.0.0.1" (JInt 3) all_follows)] in
  sample_digest "10.0.0.1" ∈ voted_ips s ∧
  submit_vote sample_digest (vote_request "10.0.0.1" (JInt 99) all_follows) s
    = (AlreadyVoted, s).
Proof.
  intros s.
  assert (sample_digest "10.0.0.1" ∈ voted_ips s) as Hvoted
    by (apply (bool_decide_unpack _); vm_compute; exact I).
  split; [exact Hvoted|].
  apply (repeated_identity_rejected sample_digest
           (vote_request "10.0.0.1" (JInt 99) all_follows) s
           (JObj [("video_id", JInt 99); ("social_follows", all_follows)])
           (JInt 99) all_follows (sample_digest "10.0.0.1"));
    try reflexivity; exact Hvoted.
Defined.

(** C7 as stated fails: an identity that has voted and votes again with all
    flags true but the item id [0] is answered 'Video ID is required'. *)
Lemma repeated_identity_falsy_id_not_already_voted :
  let s := state_after sample_digest
             [SubmitVote (vote_request "10.0.0.1" (JInt 3) all_follows)] in
  sample_digest "10.0.0.1" ∈ voted_ips s ∧
  all_flags_met all_follows = true ∧
  submit_vote sample_digest (vote_request "10.0.0.1" (JInt 0) all_follows) s
    = (VideoIdRequired, s) ∧
  VideoIdRequired ≠ AlreadyVoted.
Proof.
  intros s. split; [apply (bool_decide_unpack _); vm_compute; exact I|].
  split; [reflexivity|]. split; [vm_compute; reflexivity|discriminate].
Qed.

Lemma unregistered_item_rejected_witness :
  ¬ registered (JInt 99) (votes_storage initial_store) ∧
  submit_vote sample_digest (vote_request "10.0.0.1" (JInt 99) all_follows)
    initial_store = (InvalidItem, initial_store).
Proof.
  assert (¬ registered (JInt 99) (votes_storage initial_store)) as Hunreg.
  { intros (k & [= <-] & n & Hn). vm_compute in Hn. discriminate. }
  split; [exact Hunreg|].
  apply (unregistered_item_rejected sample_digest
           (vote_request "10.0.0.1" (JInt 99) all_follows) initial_store
           (JObj [("video_id", JInt 99); ("social_follows", all_follows)])
           (JInt 99) all_follows (sample_digest "10.0.0.1"));
    try reflexivity; try discriminate; try exact Hunreg.
Defined.

(** C4 as stated fails: the unregistered item id [99] is answered
    'Must follow on instagram' when no flag is sent and 'You have already
    voted' when the identity has voted; and the id [[1]], a list, cannot be
    looked up in the dict at all: the [TypeError] is answered with 500. *)
Lemma unregistered_item_not_always_invalid :
  let s := state_after sample_digest
             [SubmitVote (vote_request "10.0.0.1" (JInt 3) all_follows)] in
  ¬ registered (JInt 99) (votes_storage initial_store) ∧
  ¬ registered (JInt 99) (votes_storage s) ∧
  submit_vote sample_digest (vote_request "10.0.0.1" (JInt 99) (JObj []))
    initial_store = (MissingRequirement "instagram", initial_store) ∧
  MissingRequirement "instagram" ≠ InvalidItem ∧
  submit_vote sample_digest (vote_request "10.0.0.1" (JInt 99) all_follows) s
    = (AlreadyVoted, s) ∧
  AlreadyVoted ≠ InvalidItem ∧
  ¬ registered (JArr [JInt 1]) (votes_storage initial_store) ∧
  submit_vote sample_digest
    (vote_request "10.0.0.1" (JArr [JInt 1]) all_follows) initial_store
    = (Err500 TypeError, initial_store).
Proof.
  intros s. repeat split; try discriminate; try (vm_compute; reflexivity).
  - intros (k & [= <-] & n & Hn). vm_compute in Hn. discriminate.
  - intros (k & [= <-] & n & Hn). vm_compute in Hn. discriminate.
  - intros (k & [=] & _).
Qed.

Lemma missing_requirement_reported_witness :
  let follows := [("instagram", JBool true); ("twitter", JBool false)] in
  unmet follows "linkedin" ∧
  ∃ before platform after,
    required_platforms = before ++ platform :: after ∧
    unmet follows platform ∧
    submit_vote sample_digest (vote_request "10.0.0.1" (JInt 3) (JObj follows))
      initial_store = (MissingRequirement platform, initial_store).
Proof.
  intros follows.
  assert (unmet follows "linkedin") as Hunmet by (left; reflexivity).
  split; [exact Hunmet|].
  assert (∃ platform, platform ∈ required_platforms ∧ unmet follows platform)
    as Hsome.
  { exists "linkedin". split; [|exact Hunmet].
    apply elem_of_cons. right. apply elem_of_cons. left. reflexivity. }
  destruct (missing_requirement_reported sample_digest
              (vote_request "10.0.0.1" (JInt 3) (JObj follows)) initial_store
              (JObj [("video_id", JInt 3); ("social_follows", JObj follows)])
              (JInt 3) follows eq_refl eq_refl eq_refl eq_refl Hsome)
    as (_ & before & p & after & Hsplit & Hbefore & Hp & Hrun).
  exists before, p, after. auto.
Defined.

(** C5 as stated fails: with no flag sent, a request without [video_id] is
    answered 'Video ID is required', and a request whose [social_follows]
    is [null] ends in the [except] clause with status 500. *)
Lemma missing_flag_not_always_missing_requirement :
  let no_id := {| get_json := Some (JObj [("social_follows", JObj [])]);
                  HTTP_X_FORWARDED_FOR := None;
                  REMOTE_ADDR := Some "10.0.0.1" |} in
  unmet [] "instagram" ∧
  submit_vote sample_digest no_id initial_store
    = (VideoIdRequired, initial_store) ∧
  (∀ platform, VideoIdRequired ≠ MissingRequirement platform) ∧
  submit_vote sample_digest (vote_request "10.0.0.1" (JInt 3) JNull)
    initial_store = (Err500 AttributeError, initial_store).
Proof.
  intros no_id. split; [left; reflexivity|].
  split; [vm_compute; reflexivity|].
  split; [intros platform; discriminate|vm_compute; reflexivity].
Qed.

(** ** Recorded votes *)

Section Recorded.

Variable digest : string → string.

Lemma as_key_nonzero_truthy video_id k :
  as_key video_id = IntKey k → k ≠ 0 → truthy video_id = true.
Proof.
  destruct video_id as [|b|z|[q| |]|str|items|fields];
    cbn [as_key truthy]; try discriminate.
  - destruct b; [reflexivity|]. intros [= <-]. congruence.
  - intros [= ->] Hk. by apply negb_true_iff, Z.eqb_neq.
  - cbv zeta. destruct (Z.pos (Qden (Qred q)) =? 1); [|discriminate].
    intros [= Hnum] Hk. apply negb_true_iff, Z.eqb_neq. intros Hq.
    pose proof (Qred_correct q) as Heq. unfold Qeq in Heq.
    rewrite Hq in Heq. nia.
Qed.

(** The keys of [votes_storage] are those of the initial dict, and [0] is
    not one of them. *)
Lemma reachable_keys calls k :
  is_Some (votes_storage (state_after digest calls) !! k) →
  is_Some (initial_votes !! k) ∧ k ≠ 0.
Proof.
  unfold state_after.
  apply (serve_invariant digest
           (λ s, is_Some (votes_storage s !! k) → is_Some (initial_votes !! k) ∧ k ≠ 0)).
  - simpl. intros Hk. split; [assumption|]. intros ->.
    destruct Hk as [n Hn]. vm_compute in Hn. discriminate.
  - intros s j h n IH _ Hj _. simpl.
    destruct (decide (j = k)) as [->|Hne].
    + intros _. apply IH. eauto.
    + by rewrite lookup_insert_ne.
Qed.

(** C2. In every reachable store, a vote for a registered [video_id] with
    all required flags met, from an identity not yet in [voted_ips], is
    answered with success; it adds one to that item's counter, returns the
    new counter, inserts the identity and changes no other counter. *)
Theorem vote_recorded calls req data video_id follows h :
  let s := state_after digest calls in
  request_get_json req = inr data →
  py_get data "video_id" JNull = inr video_id →
  registered video_id (votes_storage s) →
  py_get data "social_follows" (JObj []) = inr follows →
  all_flags_met follows = true →
  client_identity digest req = Some h →
  h ∉ voted_ips s →
  ∃ k n s',
    as_key video_id = IntKey k ∧
    votes_storage s !! k = Some n ∧
    submit_vote digest req s = (Success (VoteSubmitted (n + 1)), s') ∧
    votes_storage s' !! k = Some (n + 1) ∧
    (∀ j, j ≠ k → votes_storage s' !! j = votes_storage s !! j) ∧
    voted_ips s' = {[h]} ∪ voted_ips s.
Proof.
  intros s Hdata Hvid (k & Hkey & Hk) Hfollows Hmet Hid Hfresh.
  destruct (reachable_keys calls k Hk) as [_ Hk0].
  pose proof (as_key_nonzero_truthy _ _ Hkey Hk0) as Htruthy.
  destruct Hk as [n Hn]. fold s in Hn.
  exists k, n. eexists. split; [exact Hkey|]. split; [exact Hn|].
  rewrite (submit_vote_past_entry digest req video_id h)
    by (eapply entry_checks_pass; eassumption).
  rewrite bool_decide_eq_false_2 by assumption.
  rewrite Hkey, Hn. split; [reflexivity|]. simpl.
  split; [apply lookup_insert_eq|].
  split; [|reflexivity].
  intros j Hj. by rewrite lookup_insert_ne.
Qed.

End Recorded.

Lemma vote_recorded_witness :
  let s := state_after sample_digest
             [SubmitVote (vote_request "10.0.0.1" (JInt 3) all_follows)] in
  let req := vote_request "10.0.0.2" (JInt 3) all_follows in
  (sample_digest "10.0.0.2" ∉ voted_ips s) ∧
  ∃ k n s',
    as_key (JInt 3) = IntKey k ∧
    votes_storage s !! k = Some n ∧
    submit_vote sample_digest req s = (Success (VoteSubmitted (n + 1)), s') ∧
    votes_storage s' !! k = Some (n + 1) ∧
    (∀ j, j ≠ k → votes_storage s' !! j = votes_storage s !! j) ∧
    voted_ips s' = {[sample_digest "10.0.0.2"]} ∪ voted_ips s.
Proof.
  intros s req.
  assert (sample_digest "10.0.0.2" ∉ voted_ips s) as Hfresh
    by (apply (bool_decide_unpack _); vm_compute; exact I).
  split; [exact Hfresh|].
  apply (vote_recorded sample_digest
           [SubmitVote (vote_request "10.0.0.1" (JInt 3) all_follows)] req
           (JObj [("video_id", JInt 3); ("social_follows", all_follows)])
           (JInt 3) all_follows (sample_digest "10.0.0.2")
           eq_refl eq_refl);
    [|reflexivity|reflexivity|reflexivity|exact Hfresh].
  exists 3. split; [reflexivity|]. exists 1. vm_compute. reflexivity.
Defined.

(** ** Growth of the store *)

Section Growth.

Variable digest : string → string.

(** C9. Over any sequence of calls, from any store, no identity leaves
    [voted_ips] and no counter disappears or decreases; [check_voted],
    [get_votes] and [get_analytics] (and [verify_social_follows]) return
    the store exactly as they found it. *)
Theorem store_only_grows calls s :
  voted_ips s ⊆ voted_ips (serve digest calls s).2 ∧
  (∀ k n, votes_storage s !! k = Some n →
     ∃ n', votes_storage (serve digest calls s).2 !! k = Some n' ∧ n ≤ n') ∧
  (∀ req, (check_voted digest req s).2 = s) ∧
  (get_votes s).2 = s ∧
  (get_analytics s).2 = s ∧
  (∀ req, (verify_social_follows req s).2 = s).
Proof.
  split; [|split].
  - apply (serve_invariant digest (λ s', voted_ips s ⊆ voted_ips s'));
      [reflexivity|].
    intros s' k h n Hsub _ _ _. simpl. set_solver.
  - apply (serve_invariant digest
             (λ s', ∀ k n, votes_storage s !! k = Some n →
                      ∃ n', votes_storage s' !! k = Some n' ∧ n ≤ n')).
    + intros k n Hk. exists n. split; [assumption|lia].
    + intros s' j h m IH _ Hj _ k n Hk. simpl.
      destruct (IH k n Hk) as (n' & Hn' & Hle).
      destruct (decide (j = k)) as [->|Hne].
      * exists (m + 1). rewrite lookup_insert_eq. split; [reflexivity|].
        rewrite Hj in Hn'. injection Hn' as ->. lia.
      * exists n'. by rewrite lookup_insert_ne.
  - repeat split.
    + intros req. apply check_voted_effect.
    + apply get_analytics_effect.
    + intros req. apply verify_social_follows_effect.
Qed.

(** ** Counters and participants *)

Lemma sum_values_lookup (m : gmap Z Z) k n :
  m !! k = Some n → sum_values m = n + sum_values (delete k m).
Proof.
  intros Hk. unfold sum_values.
  apply (map_fold_delete_L (λ _ v acc, v + acc)); [|assumption].
  intros. lia.
Qed.

Lemma sum_values_insert_fresh (m : gmap Z Z) k n :
  m !! k = None → sum_values (<[k:=n]> m) = n + sum_values m.
Proof.
  intros Hk. unfold sum_values.
  apply (map_fold_insert_L (λ _ v acc, v + acc)); [|assumption].
  intros. lia.
Qed.

(** [votes_storage[k] += 1] adds one to the sum of the counters. *)
Lemma sum_values_increment (m : gmap Z Z) k n :
  m !! k = Some n → sum_values (<[k:=n + 1]> m) = sum_values m + 1.
Proof.
  intros Hk. rewrite (sum_values_lookup m k n Hk).
  rewrite <- (insert_delete_eq m).
  rewrite sum_values_insert_fresh by apply lookup_delete_eq. lia.
Qed.

Lemma sum_values_nonneg (m : gmap Z Z) :
  (∀ k n, m !! k = Some n → 0 ≤ n) → 0 ≤ sum_values m.
Proof.
  induction m as [|k n m Hk IH] using map_ind; intros Hpos.
  - unfold sum_values. rewrite map_fold_empty. lia.
  - rewrite sum_values_insert_fresh by assumption.
    assert (0 ≤ n) by (apply (Hpos k); apply lookup_insert_eq).
    assert (0 ≤ sum_values m); [|lia].
    apply IH. intros j v Hj. apply (Hpos j).
    rewrite lookup_insert_ne; [assumption|]. intros ->. congruence.
Qed.

Lemma sum_values_bounds (m : gmap Z Z) k n :
  (∀ k n, m !! k = Some n → 0 ≤ n) → m !! k = Some n → 0 ≤ n ≤ sum_values m.
Proof.
  intros Hpos Hk. split; [eauto|].
  rewrite (sum_values_lookup m k n Hk).
  assert (0 ≤ sum_values (delete k m)); [|lia].
  apply sum_values_nonneg. intros j v Hj.
  apply lookup_delete_Some in Hj as [_ Hj]. eauto.
Qed.

Lemma initial_store_consistent : consistent initial_store.
Proof.
  split.
  - intros k n Hk. unfold initial_store, initial_votes in Hk. simpl in Hk.
    repeat (apply lookup_insert_Some in Hk as [[_ <-]|[_ Hk]]; [lia|]).
    by rewrite lookup_empty in Hk.
  - vm_compute. reflexivity.
Qed.

Lemma consistent_preserved calls s :
  consistent s → consistent (serve digest calls s).2.
Proof.
  intros Hs. apply (serve_invariant digest consistent); [assumption|].
  clear. intros s k h n [Hpos Hsum] _ Hk Hfresh. split; simpl.
  - intros j m Hj. apply lookup_insert_Some in Hj as [[_ <-]|[_ Hj]];
      [|eauto]. specialize (Hpos k n Hk). lia.
  - rewrite (sum_values_increment _ _ _ Hk), Hsum.
    rewrite size_union by set_solver. rewrite size_singleton. lia.
Qed.

Lemma reachable_consistent calls : consistent (state_after digest calls).
Proof. apply consistent_preserved, initial_store_consistent. Qed.

End Growth.

(** ** One vote per identity *)

Section OnePerIdentity.

Variable digest : string → string.

Lemma entry_checks_identity req video_id h :
  entry_checks digest req = inr (inr (video_id, h)) →
  client_identity digest req = Some h.
Proof.
  unfold entry_checks, client_identity.
  destruct (request_get_json req) as [e0|data]; [discriminate|].
  destruct (py_get data "video_id" JNull) as [e0|vid]; [discriminate|].
  destruct (py_get data "social_follows" (JObj [])) as [e0|follows]; [discriminate|].
  destruct (negb (truthy vid)); [discriminate|].
  destruct (first_unmet follows required_platforms) as [e0|[p|]];
    [discriminate|discriminate|].
  destruct (get_client_ip req) as [e0|ip]; [discriminate|]. congruence.
Qed.


Lemma voted_identity_fails req s h :
  client_identity digest req = Some h → h ∈ voted_ips s →
  is_vote_success (submit_vote digest req s).1 = false ∧
  (submit_vote digest req s).2 = s.
Proof.
  intros Hid Hvoted.
  destruct (submit_vote_effect digest req s)
    as [[Hfailed Hsame]|(v & h' & k & Hentry & _ & n & _ & Hfresh & _)].
  - split; [|assumption].
    destruct (submit_vote digest req s).1; [destruct Hfailed|reflexivity..].
  - apply entry_checks_identity in Hentry. congruence.
Qed.

Lemma voted_identity_no_success reqs s h :
  (∀ req, req ∈ reqs → client_identity digest req = Some h) →
  h ∈ voted_ips s →
  List.filter is_vote_success (serve digest (SubmitVote <$> reqs) s).1 = [].
Proof.
  revert s. induction reqs as [|req reqs IH]; intros s Hid Hvoted; [reflexivity|].
  rewrite fmap_cons, serve_cons. cbn [fst dispatch List.filter].
  destruct (voted_identity_fails req s h) as [-> ->];
    [apply Hid; left|assumption|].
  apply IH; [|assumption]. intros r Hr. apply Hid. by right.
Qed.

Lemma successful_vote_registers req s :
  is_vote_success (submit_vote digest req s).1 = true →
  ∀ h, client_identity digest req = Some h →
       h ∈ voted_ips (submit_vote digest req s).2.
Proof.
  intros Hok h Hid.
  destruct (submit_vote_effect digest req s)
    as [[Hfailed _]|(v & h' & k & Hentry & _ & n & _ & _ & _ & ->)].
  - destruct (submit_vote digest req s).1; [destruct Hfailed|discriminate..].
  - apply entry_checks_identity in Hentry.
    assert (h' = h) as -> by congruence. simpl. set_solver.
Qed.

Lemma voted_identity_all_rejected reqs s h :
  (∀ req, req ∈ reqs → client_identity digest req = Some h ∧
                        well_formed_vote req (votes_storage s)) →
  h ∈ voted_ips s →
  (serve digest (SubmitVote <$> reqs) s).1 = replicate (length reqs) AlreadyVoted.
Proof.
  intros Hreqs Hvoted. induction reqs as [|req reqs IH]; [reflexivity|].
  rewrite fmap_cons, serve_cons. cbn [fst dispatch length replicate].
  destruct (Hreqs req) as (Hid & data & v & follows & Hdata & Hv & Htruthy & _ & Hf & Hmet);
    [by left|].
  rewrite (submit_vote_past_entry digest req v h)
    by (eapply entry_checks_pass; eassumption).
  rewrite bool_decide_eq_true_2 by assumption. cbn [fst snd].
  f_equal. apply IH. intros r Hr. apply Hreqs. by right.
Qed.

(** C3, as the code has it. Votes of one identity served one after another
    yield at most one success; and when that identity has not voted, N such
    votes, each well formed for a registered item, yield one success
    followed by N-1 'You have already voted'. *)
Theorem sequential_votes_once_per_identity reqs s h :
  (∀ req, req ∈ reqs → client_identity digest req = Some h) →
  (length (List.filter is_vote_success
             (serve digest (SubmitVote <$> reqs) s).1) ≤ 1)%nat ∧
  (reqs ≠ [] →
   h ∉ voted_ips s →
   (∀ req, req ∈ reqs → well_formed_vote req (votes_storage s)) →
   ∃ n, (serve digest (SubmitVote <$> reqs) s).1 =
          Success (VoteSubmitted n) :: replicate (length reqs - 1) AlreadyVoted).
Proof.
  intros Hid. split.
  - revert s. induction reqs as [|req reqs IH]; intros s; [simpl; lia|].
    rewrite fmap_cons, serve_cons. cbn [fst dispatch List.filter].
    assert (∀ r, r ∈ reqs → client_identity digest r = Some h) as Hrest
      by (intros r Hr; apply Hid; by right).
    destruct (is_vote_success (submit_vote digest req s).1) eqn:Hok.
    + rewrite (voted_identity_no_success reqs _ h Hrest); [simpl; lia|].
      apply successful_vote_registers; [assumption|]. apply Hid. by left.
    + apply (IH Hrest).
  - intros Hne Hfresh Hwf. destruct reqs as [|req reqs]; [congruence|].
    rewrite fmap_cons, serve_cons. cbn [fst dispatch length].
    destruct (Hwf req) as (data & v & follows & Hdata & Hv & Htruthy
                           & (k & Hkey & n & Hn) & Hf & Hmet); [by left|].
    assert (client_identity digest req = Some h) as Hreq by (apply Hid; by left).
    rewrite (submit_vote_past_entry digest req v h)
      by (eapply entry_checks_pass; eassumption).
    rewrite bool_decide_eq_false_2 by assumption. rewrite Hkey, Hn.
    cbn [fst snd]. exists (n + 1). f_equal.
    replace (S (length reqs) - 1)%nat with (length reqs) by lia.
    apply (voted_identity_all_rejected _ _ h); [|simpl; set_solver].
    intros r Hr. split; [apply Hid; by right|].
    destruct (Hwf r) as (data' & v' & follows' & ? & ? & ? & (k' & ? & Hk') & ? & ?);
      [by right|].
    exists data', v', follows'. repeat split; try assumption.
    exists k'. split; [assumption|]. simpl.
    destruct (decide (k = k')) as [->|Hkk].
    + rewrite lookup_insert_eq. eauto.
    + by rewrite lookup_insert_ne.
Qed.

End OnePerIdentity.

Lemma sequential_votes_once_per_identity_witness :
  let req := vote_request "10.0.0.1" (JInt 3) all_follows in
  let responses := (serve sample_digest (SubmitVote <$> [req; req; req])
                      initial_store).1 in
  client_identity sample_digest req = Some (sample_digest "10.0.0.1") ∧
  (length (List.filter is_vote_success responses) ≤ 1)%nat ∧
  ∃ n, responses = [Success (VoteSubmitted n); AlreadyVoted; AlreadyVoted].
Proof.
  intros req responses. split; [reflexivity|].
  assert (∀ r, r ∈ [req; req; req] →
               client_identity sample_digest r = Some (sample_digest "10.0.0.1"))
    as Hid.
  { intros r Hr. repeat (apply elem_of_cons in Hr as [->|Hr]; [reflexivity|]).
    inversion Hr. }
  destruct (sequential_votes_once_per_identity sample_digest [req; req; req]
              initial_store (sample_digest "10.0.0.1") Hid) as [Hone Hshape].
  split; [exact Hone|]. apply Hshape; [discriminate|set_solver|].
  intros r Hr.
  exists (JObj [("video_id", JInt 3); ("social_follows", all_follows)]),
         (JInt 3), all_follows.
  repeat (apply elem_of_cons in Hr as [->|Hr];
          [repeat split; try reflexivity;
           exists 3; split; [reflexivity|]; exists 0; reflexivity|]).
  inversion Hr.
Defined.

(** C3 as stated fails: the handler holds no lock, so a second request of
    the same identity can run between the membership test of the first and
    its [voted_ips.add]; both are then answered with success and the
    counter is raised twice for one identity. *)
Lemma overlapping_votes_both_succeed :
  let req := vote_request "10.0.0.1" (JInt 3) all_follows in
  let schedule := [0; 0; 1; 1; 1; 1; 1; 1; 0; 0; 0; 0]%nat in
  let '(pool, s) := run_schedule sample_digest schedule
                      [AtEntry req; AtEntry req] initial_store in
  client_identity sample_digest req = Some (sample_digest "10.0.0.1") ∧
  pool = [Done (Success (VoteSubmitted 2)); Done (Success (VoteSubmitted 1))] ∧
  succeeded pool = 2%nat ∧
  votes_storage s !! 3 = Some 2 ∧
  size (voted_ips s) = 1%nat.
Proof. vm_compute. repeat split; reflexivity. Qed.

(** ** Rounding of the percentages *)

Section Rounding.

Lemma round_half_even_error n d :
  0 < d → - d ≤ 2 * (round_half_even n d * d - n) ≤ d.
Proof.
  intros Hd. unfold round_half_even.
  pose proof (Z.div_mod n d ltac:(lia)) as Hdm.
  pose proof (Z.mod_pos_bound n d Hd) as Hmod.
  destruct (Z.compare_spec (2 * (n mod d)) d) as [Heq|Hlt|Hgt];
    [destruct (Z.even (n / d))|..]; nia.
Qed.

Lemma round_half_even_nonneg n d : 0 < d → 0 ≤ n → 0 ≤ round_half_even n d.
Proof.
  intros Hd Hn. unfold round_half_even.
  pose proof (Z.div_pos n d Hn Hd).
  destruct (2 * (n mod d) ?= d); [destruct (Z.even (n / d))|..]; lia.
Qed.

Lemma round_half_even_le n d K : 0 < d → n ≤ K * d → round_half_even n d ≤ K.
Proof.
  intros Hd Hn. unfold round_half_even.
  pose proof (Z.div_mod n d ltac:(lia)) as Hdm.
  pose proof (Z.mod_pos_bound n d Hd) as Hmod.
  assert (n / d ≤ K) as Hfl by nia.
  destruct (Z.compare_spec (2 * (n mod d)) d) as [Heq|Hlt|Hgt];
    [destruct (Z.even (n / d))|..]; nia.
Qed.

Lemma binade_le n d b :
  0 < n → 0 < d → 0 ≤ b → n ≤ 2 ^ b * d → binade n d ≤ b.
Proof.
  intros Hn Hd Hb Hle. unfold binade.
  assert (Z.log2 n ≤ b + Z.log2 d).
  { rewrite <- Z.log2_mul_pow2 by lia. apply Z.log2_le_mono. lia. }
  destruct (if 0 <=? Z.log2 n - Z.log2 d then _ else _); lia.
Qed.


(** [binade] names the binade of [n / d]. *)
Lemma binade_spec n d a b :
  0 < n → 0 < d → 0 ≤ a → 0 ≤ b → binade n d = a - b →
  d * 2 ^ a ≤ n * 2 ^ b < 2 * (d * 2 ^ a).
Proof.
  intros Hn Hd Ha Hb. unfold binade.
  destruct (Z.log2_spec n Hn) as [Hn1 Hn2].
  destruct (Z.log2_spec d Hd) as [Hd1 Hd2].
  pose proof (Z.log2_nonneg n) as Hln. pose proof (Z.log2_nonneg d) as Hld.
  rewrite Z.pow_succ_r in Hn2, Hd2 by assumption.
  set (ln := Z.log2 n) in *. set (ld := Z.log2 d) in *.
  assert (0 < 2 ^ a) as Hpa by (apply Z.pow_pos_nonneg; lia).
  assert (0 < 2 ^ b) as Hpb by (apply Z.pow_pos_nonneg; lia).
  destruct (Z.leb_spec 0 (ln - ld)) as [He0|He0].
  - assert (2 ^ ln = 2 ^ ld * 2 ^ (ln - ld)) as Hsplit
      by (rewrite <- Z.pow_add_r by lia; f_equal; lia).
    assert (0 < 2 ^ (ln - ld)) as Hpe by (apply Z.pow_pos_nonneg; lia).
    destruct (Z.ltb_spec n (d * 2 ^ (ln - ld))) as [Hlt|Hge]; intros He.
    + assert (2 ^ (ln - ld) * 2 ^ b = 2 * 2 ^ a) as Hab.
      { rewrite <- Z.pow_add_r, <- Z.pow_succ_r by lia. f_equal. lia. }
      nia.
    + assert (2 ^ (ln - ld) * 2 ^ b = 2 ^ a) as Hab.
      { rewrite <- Z.pow_add_r by lia. f_equal. lia. }
      nia.
  - assert (2 ^ ld = 2 ^ ln * 2 ^ (- (ln - ld))) as Hsplit
      by (rewrite <- Z.pow_add_r by lia; f_equal; lia).
    assert (0 < 2 ^ (- (ln - ld))) as Hpe by (apply Z.pow_pos_nonneg; lia).
    destruct (Z.ltb_spec (n * 2 ^ (- (ln - ld))) d) as [Hlt|Hge]; intros He.
    + assert (2 ^ b = 2 * (2 ^ (- (ln - ld)) * 2 ^ a)) as Hab.
      { rewrite <- Z.pow_add_r, <- Z.pow_succ_r by lia. f_equal. lia. }
      nia.
    + assert (2 ^ b = 2 ^ (- (ln - ld)) * 2 ^ a) as Hab.
      { rewrite <- Z.pow_add_r by lia. f_equal. lia. }
      nia.
Qed.

(** The magnitude part of [nearest]: a mantissa of at most 53 bits on the
    grid of the binade, half a grid step from the exact value at most. *)
Lemma nearest_magnitude a d :
  0 < a → 0 < d →
  let s := Z.max (binade a d) emin - (prec - 1) in
  (0 ≤ s →
     let m := round_half_even a (d * 2 ^ s) in
     0 ≤ m ≤ 2 ^ prec ∧ - (d * 2 ^ s) ≤ 2 * (m * (d * 2 ^ s) - a) ≤ d * 2 ^ s) ∧
  (s < 0 →
     let m := round_half_even (a * 2 ^ (- s)) d in
     0 ≤ m ≤ 2 ^ prec ∧ - d ≤ 2 * (m * d - a * 2 ^ (- s)) ≤ d).
Proof.
  intros Ha Hd s. split; intros Hs m; unfold prec, emin in *.
  - assert (binade a d = s + 52) as He by lia.
    assert (0 < 2 ^ s) as Hps by (apply Z.pow_pos_nonneg; lia).
    pose proof (binade_spec a d (s + 52) 0 Ha Hd ltac:(lia) ltac:(lia) ltac:(lia))
      as [_ Hup].
    rewrite Z.pow_add_r in Hup by lia.
    split; [split|].
    + apply round_half_even_nonneg; nia.
    + apply round_half_even_le; [nia|]. change (2 ^ 53) with (2 * 2 ^ 52). nia.
    + apply round_half_even_error. nia.
  - assert (0 < 2 ^ (- s)) as Hps by (apply Z.pow_pos_nonneg; lia).
    split; [split|].
    + apply round_half_even_nonneg; nia.
    + apply round_half_even_le; [lia|].
      destruct (Z.le_gt_cases 0 (binade a d)) as [He|He].
      * pose proof (binade_spec a d (binade a d) 0 Ha Hd He) as Hup.
        specialize (Hup ltac:(lia) ltac:(lia)). destruct Hup as [_ Hup].
        assert (2 ^ binade a d * 2 ^ (- s) = 2 ^ 52) as Hpow.
        { rewrite <- Z.pow_add_r by lia. f_equal. lia. }
        change (2 ^ 53) with (2 * 2 ^ 52). nia.
      * pose proof (binade_spec a d 0 (- binade a d) Ha Hd ltac:(lia) ltac:(lia)
                      ltac:(lia)) as [_ Hup].
        assert (2 ^ (- s) ≤ 2 ^ (- binade a d) * 2 ^ 52) as Hpow.
        { rewrite <- Z.pow_add_r by lia. apply Z.pow_le_mono_r; lia. }
        assert (0 < 2 ^ (- binade a d)) by (apply Z.pow_pos_nonneg; lia).
        change (2 ^ 53) with (2 * 2 ^ 52). rewrite Z.pow_0_r in Hup.
        assert (a * 2 ^ (- s) ≤ a * (2 ^ (- binade a d) * 2 ^ 52)) by nia.
        nia.
    + apply round_half_even_error. lia.
Qed.

Lemma nearest_representable q r :
  nearest q = Some r →
  ∃ m s, emin - (prec - 1) ≤ s ∧ Z.abs m ≤ 2 ^ prec ∧
         (r == scaled m s)%Q ∧
         (q - scaled 1 (s - 1) <= r)%Q ∧ (r <= q + scaled 1 (s - 1))%Q.
Proof.
  destruct q as [n dp]. unfold nearest. cbn [Qnum Qden].
  destruct (Z.eqb_spec n 0) as [->|Hn].
  { intros [= <-]. exists 0, 0. unfold emin, prec, scaled, Qeq, Qle, Qminus, Qplus.
    simpl. lia. }
  set (d := Z.pos dp). assert (0 < d) as Hd by (unfold d; lia).
  assert (0 < Z.abs n) as Ha by lia.
  destruct (nearest_magnitude (Z.abs n) d Ha Hd) as [Hbig Hsmall].
  set (s := Z.max (binade (Z.abs n) d) emin - (prec - 1)) in *.
  assert (emin - (prec - 1) ≤ s) as Hsmin by (unfold s; lia).
  destruct (Z.leb_spec 0 s) as [Hs|Hs].
  - destruct (Hbig Hs) as [Hm Herr]. clear Hbig Hsmall.
    set (m := round_half_even (Z.abs n) (d * 2 ^ s)) in *.
    destruct (2 ^ emax <=? m * 2 ^ s); [discriminate|]. intros [= <-].
    exists (Z.sgn n * m), s. split; [assumption|].
    split; [rewrite Z.abs_mul; lia|].
    assert (0 < 2 ^ s) as Hps by (apply Z.pow_pos_nonneg; lia).
    rewrite !Qred_correct. unfold scaled.
    destruct (Z.leb_spec 0 s) as [_|?]; [|lia].
    split; [reflexivity|].
    destruct (Z.leb_spec 0 (s - 1)) as [Hs1|Hs1].
    + assert (2 ^ s = 2 * 2 ^ (s - 1)) as Hpow
        by (rewrite <- Z.pow_succ_r by lia; f_equal; lia).
      assert (0 < 2 ^ (s - 1)) by (apply Z.pow_pos_nonneg; lia).
      unfold Qle, Qminus, Qplus, Qopp; simpl. fold d.
      destruct (Z.lt_trichotomy n 0) as [Hneg|[?|Hpos]]; [|lia|].
      * rewrite (Z.sgn_neg n), (Z.abs_neq n) in * by lia. split; nia.
      * rewrite (Z.sgn_pos n), (Z.abs_eq n) in * by lia. split; nia.
    + assert (s = 0) as Hs0 by lia. rewrite Hs0 in *.
      unfold Qle, Qminus, Qplus, Qopp; simpl. fold d.
      destruct (Z.lt_trichotomy n 0) as [Hneg|[?|Hpos]]; [|lia|].
      * rewrite (Z.sgn_neg n), (Z.abs_neq n) in * by lia. split; nia.
      * rewrite (Z.sgn_pos n), (Z.abs_eq n) in * by lia. split; nia.
  - destruct (Hsmall Hs) as [Hm Herr]. clear Hbig Hsmall.
    set (m := round_half_even (Z.abs n * 2 ^ (- s)) d) in *.
    intros [= <-]. exists (Z.sgn n * m), s. split; [assumption|].
    split; [rewrite Z.abs_mul; lia|].
    assert (0 < 2 ^ (- s)) as Hps by (apply Z.pow_pos_nonneg; lia).
    rewrite !Qred_correct. unfold scaled.
    destruct (Z.leb_spec 0 s) as [?|_]; [lia|].
    destruct (Z.leb_spec 0 (s - 1)) as [?|_]; [lia|].
    split; [reflexivity|].
    assert (2 ^ (- (s - 1)) = 2 * 2 ^ (- s)) as Hpow
      by (rewrite <- Z.pow_succ_r by lia; f_equal; lia).
    unfold Qle, Qminus, Qplus, Qopp; simpl. fold d.
    rewrite !Z2Pos.id by lia. rewrite Hpow.
    destruct (Z.lt_trichotomy n 0) as [Hneg|[?|Hpos]]; [|lia|].
    + rewrite (Z.sgn_neg n), (Z.abs_neq n) in * by lia. split; nia.
    + rewrite (Z.sgn_pos n), (Z.abs_eq n) in * by lia. split; nia.
Qed.

(** Below [2^52] every integer is a float, so rounding keeps a value under
    an integer bound and moves it by at most half the grid step. *)
Lemma nearest_bounded q B b :
  0 ≤ b ≤ 51 → 0 ≤ B ≤ 2 ^ b → (0 <= q)%Q → (q <= B # 1)%Q →
  ∃ r, nearest q = Some r ∧
       (0 <= r)%Q ∧ (r <= B # 1)%Q ∧
       (q - half_ulp b <= r)%Q ∧ (r <= q + half_ulp b)%Q.
Proof.
  intros Hb HB Hq0 HqB. destruct q as [n dp].
  unfold Qle in Hq0, HqB. simpl in Hq0, HqB.
  unfold nearest. cbn [Qnum Qden].
  destruct (Z.eqb_spec n 0) as [->|Hn].
  { exists (0 # 1)%Q. split; [reflexivity|]. unfold half_ulp, Qle, Qminus, Qplus; simpl.
    repeat split; try lia. }
  assert (0 < n) as Hpos by lia.
  rewrite (Z.abs_eq n) by lia. rewrite (Z.sgn_pos n) by lia.
  set (d := Z.pos dp) in *.
  assert (0 < d) as Hd by (unfold d; lia).
  pose proof (binade_le n d b Hpos Hd ltac:(lia) ltac:(nia)) as He.
  set (s := Z.max (binade n d) emin - (prec - 1)).
  assert (s ≤ b - 52) as Hs by (unfold s, emin, prec; lia).
  destruct (Z.leb_spec 0 s) as [?|_]; [lia|].
  set (k := - s). 
  assert (0 < 2 ^ k) as HP by (apply Z.pow_pos_nonneg; unfold k; lia).
  assert (2 ^ (53 - b) ≤ 2 * 2 ^ k) as HE.
  { rewrite <- Z.pow_succ_r by (unfold k; lia).
    apply Z.pow_le_mono_r; unfold k; lia. }
  assert (0 < 2 ^ (53 - b)) as HE0 by (apply Z.pow_pos_nonneg; lia).
  set (m := round_half_even (n * 2 ^ k) d).
  pose proof (round_half_even_error (n * 2 ^ k) d Hd) as Herr.
  pose proof (round_half_even_nonneg (n * 2 ^ k) d Hd ltac:(nia)) as Hm0.
  pose proof (round_half_even_le (n * 2 ^ k) d (B * 2 ^ k) Hd ltac:(nia)) as HmB.
  fold m in Herr, Hm0, HmB.
  eexists. split; [reflexivity|].
  rewrite !Qred_correct. unfold half_ulp, Qle, Qminus, Qplus, Qopp; simpl.
  rewrite !Z2Pos.id by lia. fold d.
  repeat split; try nia.
Qed.

Lemma float_of_int_100 : float_of_int 100 = inr (Finite (100 # 1)).
Proof. vm_compute. reflexivity. Qed.

Lemma round_tenths_bounds x :
  (0 <= x)%Q → (x <= 100 # 1)%Q →
  0 ≤ round_tenths x ≤ 1000 ∧
  (x - (1 # 20) <= round_tenths x # 10)%Q ∧
  (round_tenths x # 10 <= x + (1 # 20))%Q.
Proof.
  destruct x as [n dp]. unfold Qle, round_tenths. simpl. intros H0 H100.
  pose proof (round_half_even_error (10 * n) (Z.pos dp) ltac:(lia)) as Herr.
  pose proof (round_half_even_nonneg (10 * n) (Z.pos dp) ltac:(lia) ltac:(lia)).
  pose proof (round_half_even_le (10 * n) (Z.pos dp) 1000 ltac:(lia) ltac:(lia)).
  set (j := round_half_even (10 * n) (Z.pos dp)) in *.
  unfold Qminus, Qplus, Qopp; simpl. repeat split; try lia.
Qed.

Lemma percentage_of_spec count total :
  0 ≤ count ≤ total → 0 < total →
  ∃ p tenths,
    percentage_of count total = inr (PyFloat (Finite p)) ∧
    0 ≤ tenths ≤ 1000 ∧
    nearest (tenths # 10) = Some p ∧
    (0 <= p)%Q ∧ (p <= 100 # 1)%Q ∧
    (exact_percentage count total - (1 # 20) - (1 # 17592186044416) <= p)%Q ∧
    (p <= exact_percentage count total + (1 # 20) + (1 # 17592186044416))%Q.
Proof.
  intros Hcount Htotal. unfold percentage_of, int_true_div.
  destruct (Z.ltb_spec 0 total) as [_|?]; [|lia].
  destruct (Z.eqb_spec total 0) as [?|_]; [lia|].
  rewrite Z.sgn_pos, Z.abs_eq by lia.
  set (q := (1 * count # Z.to_pos total)%Q).
  assert (q * (100 # 1) == exact_percentage count total)%Q as Hexact.
  { unfold q, exact_percentage, Qeq, Qmult. simpl. lia. }
  destruct (nearest_bounded q 1 0) as (x1 & -> & Hx1 & Hx1' & Hlo1 & Hhi1);
    try lia.
  { unfold q, Qle; simpl. lia. }
  { unfold q, Qle; simpl. rewrite Z2Pos.id by lia. lia. }
  rewrite float_of_int_100. cbn [py_round1 float_mul float_round1].
  destruct (nearest_bounded (x1 * (100 # 1)) 100 7)
    as (x2 & -> & Hx2 & Hx2' & Hlo2 & Hhi2); try lia.
  { lra. }
  { lra. }
  cbn [py_round1 float_round1].
  destruct (round_tenths_bounds x2 Hx2 Hx2') as (Hj & Hjlo & Hjhi).
  set (j := round_tenths x2) in *.
  destruct (nearest_bounded (j # 10) 100 7)
    as (p & Hp & Hp0 & Hp100 & Hlo3 & Hhi3); try lia.
  { unfold Qle; simpl. lia. }
  { unfold Qle; simpl. lia. }
  rewrite Hp. exists p, j. split; [reflexivity|].
  split; [assumption|]. split; [assumption|].
  split; [assumption|]. split; [assumption|].
  change (half_ulp 0) with (1 # 9007199254740992)%Q in *.
  change (half_ulp 7) with (1 # 70368744177664)%Q in *.
  rewrite <- Hexact. split; lra.
Qed.

End Rounding.

(** ** Analytics *)

Section AnalyticsFacts.

Variable digest : string → string.

(** When no entry raises, the loop fills one percentage per counter. *)
Lemma percentages_filled (votes : gmap Z Z) total :
  (∀ k count, votes !! k = Some count → ∃ p, percentage_of count total = inr p) →
  ∃ filled,
    percentages votes total = inr filled ∧
    ∀ k p, filled !! k = Some p ↔
           ∃ count, votes !! k = Some count ∧ percentage_of count total = inr p.
Proof.
  unfold percentages.
  apply (map_fold_weak_ind
           (λ r (m : gmap Z Z),
              (∀ k count, m !! k = Some count →
                 ∃ p, percentage_of count total = inr p) →
              ∃ filled, r = inr filled ∧
                ∀ k p, filled !! k = Some p ↔
                  ∃ count, m !! k = Some count ∧ percentage_of count total = inr p)).
  - intros _. exists ∅. split; [reflexivity|]. intros k p.
    rewrite lookup_empty. split; [discriminate|].
    intros (count & Hk & _). by rewrite lookup_empty in Hk.
  - intros i x m r Hi IH Hall.
    destruct IH as (filled & -> & Hfilled).
    { intros k count Hk. apply (Hall k).
      rewrite lookup_insert_ne; [assumption|]. intros ->. congruence. }
    destruct (Hall i x) as [p Hp]; [apply lookup_insert_eq|].
    rewrite Hp. exists (<[i:=p]> filled). split; [reflexivity|].
    intros k p'. destruct (decide (i = k)) as [->|Hne].
    + rewrite !lookup_insert_eq. split.
      * intros [= <-]. eauto.
      * intros (count & [= <-] & Hc). congruence.
    + rewrite !lookup_insert_ne by assumption. apply Hfilled.
Qed.

Lemma percentage_of_no_votes count total :
  total ≤ 0 → percentage_of count total = inr (PyInt 0).
Proof.
  intros Htotal. unfold percentage_of.
  destruct (Z.ltb_spec 0 total); [lia|reflexivity].
Qed.

(** On a consistent store [get_analytics] raises nothing. *)
Lemma get_analytics_consistent s :
  consistent s →
  ∃ filled,
    get_analytics s =
      (Success (Analytics {|
         total_votes := sum_values (votes_storage s);
         vote_counts := votes_storage s;
         vote_percentages := filled;
         total_participants := Z.of_nat (size (voted_ips s));
         videos_count := Z.of_nat (size (votes_storage s)) |}), s) ∧
    ∀ k p, filled !! k = Some p ↔
           ∃ count, votes_storage s !! k = Some count ∧
                    percentage_of count (sum_values (votes_storage s)) = inr p.
Proof.
  intros [Hpos Hsum].
  destruct (percentages_filled (votes_storage s) (sum_values (votes_storage s)))
    as (filled & Hrun & Hfilled).
  { intros k count Hk.
    destruct (sum_values_bounds _ _ _ Hpos Hk) as [Hc0 Hct].
    destruct (decide (sum_values (votes_storage s) = 0)) as [Hzero|Hnz].
    - exists (PyInt 0). apply percentage_of_no_votes. lia.
    - destruct (percentage_of_spec count (sum_values (votes_storage s)))
        as (p & _ & Hp & _); [lia|lia|]. eauto. }
  exists filled. split; [|exact Hfilled].
  cbv [get_analytics try_except bind lift ret raise read_votes read_voted].
  rewrite Hrun. reflexivity.
Qed.

(** C1. After any sequence of calls from the initial store, the counters
    add up to the number of identities in [voted_ips], and [get_analytics]
    reports [total_votes] equal to [total_participants]. *)
Theorem votes_equal_participants calls :
  let s := state_after digest calls in
  sum_values (votes_storage s) = Z.of_nat (size (voted_ips s)) ∧
  ∃ a, get_analytics s = (Success (Analytics a), s) ∧
       total_votes a = sum_values (votes_storage s) ∧
       total_participants a = Z.of_nat (size (voted_ips s)) ∧
       total_votes a = total_participants a.
Proof.
  intros s. pose proof (reachable_consistent digest calls) as Hs. fold s in Hs.
  split; [apply Hs|].
  destruct (get_analytics_consistent s Hs) as (filled & -> & _).
  eexists. split; [reflexivity|]. simpl. repeat split. apply Hs.
Qed.

(** C8. After any sequence of calls from the initial store, [get_analytics]
    answers with one percentage per item.  With a positive total it is the
    float [round(count / total_votes * 100, 1)]: the float nearest to a
    decimal with one digit after the point, within half a tenth (and the
    float rounding error) of the exact [count / total * 100]; with a zero
    total it is the int [0].  Every percentage lies in [[0, 100]]. *)
Theorem analytics_percentages calls :
  let s := state_after digest calls in
  let total := sum_values (votes_storage s) in
  ∃ a, get_analytics s = (Success (Analytics a), s) ∧
       total_votes a = total ∧
       0 ≤ total ∧
       (∀ k, is_Some (vote_percentages a !! k) ↔ is_Some (votes_storage s !! k)) ∧
       ∀ k count p,
         votes_storage s !! k = Some count →
         vote_percentages a !! k = Some p →
         percentage_in_range p ∧
         (total = 0 → p = PyInt 0) ∧
         (0 < total →
          ∃ ratio x tenths,
            int_true_div count total = inr ratio ∧
            py_round1 (PyFloat (float_mul ratio (Finite (100 # 1)))) = inr p ∧
            p = PyFloat (Finite x) ∧
            0 ≤ tenths ≤ 1000 ∧
            nearest (tenths # 10) = Some x ∧
            (exact_percentage count total - (1 # 20) - (1 # 17592186044416) <= x)%Q ∧
            (x <= exact_percentage count total + (1 # 20) + (1 # 17592186044416))%Q).
Proof.
  intros s total. pose proof (reachable_consistent digest calls) as Hs. fold s in Hs.
  destruct (get_analytics_consistent s Hs) as (filled & -> & Hfilled).
  destruct Hs as [Hpos Hsum]. fold total in Hsum, Hfilled.
  eexists. split; [reflexivity|]. simpl.
  split; [reflexivity|]. split; [lia|]. split.
  - intros k. split.
    + intros [p Hp]. apply Hfilled in Hp as (count & Hk & _). eauto.
    + intros [count Hk].
      destruct (sum_values_bounds _ _ _ Hpos Hk) as [Hc0 Hct]. fold total in Hct.
      destruct (decide (total = 0)) as [Hzero|Hnz].
      * exists (PyInt 0). apply Hfilled. exists count. split; [assumption|].
        apply percentage_of_no_votes. lia.
      * destruct (percentage_of_spec count total) as (p & _ & Hp & _);
          [lia|lia|].
        exists (PyFloat (Finite p)). apply Hfilled. eauto.
  - intros k count p Hk Hp.
    apply Hfilled in Hp as (count' & Hk' & Hp).
    assert (count' = count) as -> by congruence.
    destruct (sum_values_bounds _ _ _ Hpos Hk) as [Hc0 Hct]. fold total in Hct.
    destruct (decide (total = 0)) as [Hzero|Hnz].
    + rewrite percentage_of_no_votes in Hp by lia. injection Hp as <-.
      split; [simpl; lia|]. split; [reflexivity|lia].
    + destruct (percentage_of_spec count total)
        as (x & tenths & Hx & Htenths & Hnearest & Hx0 & Hx100 & Hlo & Hhi);
        [lia|lia|].
      assert (p = PyFloat (Finite x)) as -> by congruence.
      split; [split; assumption|]. split; [intros; lia|]. intros _.
      revert Hx. unfold percentage_of.
      destruct (Z.ltb_spec 0 total) as [_|?]; [|lia].
      destruct (int_true_div count total) as [e|ratio]; [discriminate|].
      rewrite float_of_int_100. intros Hx.
      exists ratio, x, tenths. repeat split; assumption || lia.
Qed.

End AnalyticsFacts.

(** ** The scenario of two clients

    Client A votes for item 3, votes again, then client B votes for item 3;
    the analytics then report two votes, all of them for item 3. *)
Example two_clients_scenario :
  let a := vote_request "10.0.0.1" in
  let b := vote_request "10.0.0.2" in
  let '(responses, s) :=
    serve sample_digest
      [SubmitVote (a (JInt 3) all_follows); SubmitVote (a (JInt 5) all_follows);
       SubmitVote (b (JInt 3) all_follows)] initial_store in
  responses = [Success (VoteSubmitted 1); AlreadyVoted; Success (VoteSubmitted 2)] ∧
  ∃ an, (get_analytics s).1 = Success (Analytics an) ∧
        total_votes an = 2 ∧
        total_participants an = 2 ∧
        vote_percentages an !! 3 = Some (PyFloat (Finite (100 # 1))) ∧
        vote_percentages an !! 1 = Some (PyFloat (Finite (0 # 1))) ∧
        videos_count an = 6.
Proof.
  vm_compute. split; [reflexivity|]. eexists. split; [reflexivity|].
  repeat split; reflexivity.
Qed.

(** [1 / 3 * 100] is the float 33.33333333333333 and rounds to 33.3;
    [1 / 16 * 100] is exactly 6.25 and rounds to the even neighbour 6.2. *)
Example percentage_one_third :
  percentage_of 1 3 = inr (PyFloat (Finite (2343279181116211 # 70368744177664))) ∧
  nearest (333 # 10) = Some (2343279181116211 # 70368744177664)%Q.
Proof. split; vm_compute; reflexivity. Qed.

Example percentage_one_sixteenth :
  percentage_of 1 16 = inr (PyFloat (Finite (6980579422424269 # 1125899906842624))) ∧
  nearest (62 # 10) = Some (6980579422424269 # 1125899906842624)%Q.
Proof. split; vm_compute; reflexivity. Qed.

(** * Further properties of the handlers *)

Set Warnings "-clear-no-such-hyp".

(** ** Accounting of accepted votes *)

Section Accounting.

Variable digest : string → string.

Lemma entry_checks_requested_key req video_id h k :
  entry_checks digest req = inr (inr (video_id, h)) →
  as_key video_id = IntKey k →
  requested_key req = Some k.
Proof.
  unfold entry_checks, requested_key.
  destruct (request_get_json req) as [e0|data]; [discriminate|].
  destruct (py_get data "video_id" JNull) as [e0|vid]; [discriminate|].
  destruct (py_get data "social_follows" (JObj [])) as [e0|follows]; [discriminate|].
  destruct (negb (truthy vid)); [discriminate|].
  destruct (first_unmet follows required_platforms) as [e0|[p|]];
    [discriminate|discriminate|].
  destruct (get_client_ip req) as [e0|ip]; [discriminate|].
  intros [= -> _] ->. reflexivity.
Qed.

(** A call either changes nothing and is not an accepted vote, or is an
    accepted vote for a key other than [0] that it records. *)
Lemma dispatch_accounting c s :
  (accepted_vote digest c (dispatch digest c s).1 = None ∧
   is_vote_success (dispatch digest c s).1 = false ∧
   (dispatch digest c s).2 = s) ∨
  ∃ k h, accepted_vote digest c (dispatch digest c s).1 = Some (k, h) ∧
         is_vote_success (dispatch digest c s).1 = true ∧
         k ≠ 0 ∧
         records s (dispatch digest c s).2 k h (dispatch digest c s).1.
Proof.
  destruct c as [req| |req|req|]; simpl.
  - destruct (submit_vote_effect digest req s)
      as [[Hfailed Hsame]|(v & h & k & Hentry & Hkey & Hrec)].
    + left. destruct (submit_vote digest req s).1; [destruct Hfailed|..];
        repeat split; assumption.
    + right. exists k, h.
      pose proof Hrec as (n & _ & _ & Hr & _). rewrite Hr in *. simpl.
      rewrite (entry_checks_requested_key _ _ _ _ Hentry Hkey).
      rewrite (entry_checks_identity digest _ _ _ Hentry).
      split; [reflexivity|]. split; [reflexivity|]. split.
      * intros ->. apply entry_checks_truthy in Hentry.
        apply as_key_zero_falsy in Hkey. congruence.
      * exact Hrec.
  - left. repeat split.
  - left. pose proof (check_voted_effect digest req s) as Hsame.
    revert Hsame. cbv [check_voted try_except bind lift ret raise read_voted].
    destruct (get_client_ip req); simpl; auto.
  - left. pose proof (verify_social_follows_effect req s) as Hsame.
    revert Hsame. cbv [verify_social_follows try_except bind lift ret raise].
    destruct (request_get_json req) as [|data]; simpl; auto.
    destruct (py_get data "platforms" (JObj [])); simpl; auto.
  - left. pose proof (get_analytics_effect s) as Hsame.
    revert Hsame.
    cbv [get_analytics try_except bind lift ret raise read_votes read_voted].
    destruct (percentages _ _); simpl; auto.
Qed.

Lemma accepted_cons c calls s :
  accepted digest (c :: calls) s =
    match accepted_vote digest c (dispatch digest c s).1 with
    | Some vote => vote :: accepted digest calls (dispatch digest c s).2
    | None => accepted digest calls (dispatch digest c s).2
    end.
Proof. simpl. destruct (dispatch digest c s). reflexivity. Qed.

Lemma tally_cons k vote votes :
  tally k (vote :: votes) = (if decide (vote.1 = k) then 1 else 0) + tally k votes.
Proof.
  unfold tally. rewrite filter_cons.
  destruct (decide (vote.1 = k)); simpl length; lia.
Qed.

End Accounting.

Section AccountingTheorems.

Variable digest : string → string.

Lemma successes_cons r rs :
  successes (r :: rs) = ((if is_vote_success r then 1 else 0) + successes rs)%nat.
Proof. unfold successes. simpl. destruct (is_vote_success r); reflexivity. Qed.

(** X1. The total that [get_votes] reports after a run is the total before
    it plus the number of votes the run answered with success; from the
    initial store it is exactly the number of successes. *)
Theorem total_counts_successes calls :
  (∀ s, sum_values (votes_storage (serve digest calls s).2) =
        sum_values (votes_storage s) + Z.of_nat (successes (serve digest calls s).1)) ∧
  (get_votes (state_after digest calls)).1 =
    Success (Votes (votes_storage (state_after digest calls))
               (Z.of_nat (successes (serve digest calls initial_store).1))).
Proof.
  assert (∀ s, sum_values (votes_storage (serve digest calls s).2) =
               sum_values (votes_storage s)
               + Z.of_nat (successes (serve digest calls s).1)) as Hsum.
  { induction calls as [|c calls IH]; intros s; [simpl; unfold successes; simpl; lia|].
    rewrite serve_cons. cbn [fst snd]. rewrite successes_cons, IH.
    destruct (dispatch_accounting digest c s)
      as [(_ & -> & ->)|(k & h & _ & -> & _ & n & Hk & _ & _ & ->)]; [lia|].
    cbn [votes_storage]. rewrite (sum_values_increment _ _ _ Hk). lia. }
  split; [exact Hsum|].
  unfold state_after. cbn. rewrite Hsum. reflexivity.
Qed.

(** X2. After a run, each counter is its value before the run plus the
    number of accepted votes whose [video_id] denotes its key; a key absent
    before is absent after. *)
Theorem counter_is_tally calls s k :
  votes_storage (serve digest calls s).2 !! k =
    (λ n, n + tally k (accepted digest calls s)) <$> votes_storage s !! k.
Proof.
  revert s. induction calls as [|c calls IH]; intros s.
  - simpl. unfold tally. simpl. destruct (votes_storage s !! k); simpl; [|reflexivity].
    f_equal. lia.
  - rewrite serve_cons, accepted_cons. cbn [snd]. rewrite IH.
    destruct (dispatch_accounting digest c s)
      as [(-> & _ & ->)|(j & h & -> & _ & _ & n & Hj & _ & _ & ->)];
      [reflexivity|].
    cbn [votes_storage]. rewrite tally_cons. cbn [fst].
    destruct (decide (j = k)) as [->|Hne].
    + rewrite lookup_insert_eq, Hj. simpl. f_equal. lia.
    + rewrite lookup_insert_ne by assumption.
      destruct (votes_storage s !! k); simpl; [|reflexivity]. f_equal.
Qed.

Lemma voted_ips_after calls s :
  voted_ips (serve digest calls s).2 =
    voted_ips s ∪ list_to_set (accepted digest calls s).*2.
Proof.
  revert s. induction calls as [|c calls IH]; intros s.
  - simpl. set_solver.
  - rewrite serve_cons, accepted_cons. cbn [snd]. rewrite IH.
    destruct (dispatch_accounting digest c s)
      as [(-> & _ & ->)|(j & h & -> & _ & _ & n & _ & _ & _ & ->)];
      [reflexivity|].
    cbn [voted_ips]. rewrite fmap_cons, list_to_set_cons. cbn [snd]. set_solver.
Qed.

(** X3. After a run, [voted_ips] holds the identities it held before and
    those of the accepted votes, and nothing else. *)
Theorem voted_ips_are_accepted calls s h :
  h ∈ voted_ips (serve digest calls s).2 ↔
  h ∈ voted_ips s ∨ ∃ k, (k, h) ∈ accepted digest calls s.
Proof.
  rewrite voted_ips_after, elem_of_union, elem_of_list_to_set, list_elem_of_fmap.
  split; (intros [?|Hacc]; [by left|right]).
  - destruct Hacc as ([k h'] & -> & Hin). eauto.
  - destruct Hacc as [k Hin]. exists (k, h). eauto.
Qed.

(** X4. No identity is accepted twice in a run, and none that was in
    [voted_ips] before the run is accepted at all, whatever other calls
    are served in between. *)
Theorem accepted_identities_distinct calls s :
  NoDup (accepted digest calls s).*2 ∧
  ∀ h, h ∈ (accepted digest calls s).*2 → h ∉ voted_ips s.
Proof.
  revert s. induction calls as [|c calls IH]; intros s.
  - simpl. split; [constructor|]. intros h Hh. inversion Hh.
  - rewrite accepted_cons.
    destruct (dispatch_accounting digest c s)
      as [(-> & _ & ->)|(j & h & -> & _ & _ & n & _ & Hfresh & _ & Hs')];
      [apply IH|].
    destruct (IH (dispatch digest c s).2) as [Hnodup Hnew].
    rewrite fmap_cons. cbn [snd]. split.
    + constructor; [|assumption]. intros Hin. apply Hnew in Hin.
      rewrite Hs' in Hin. simpl in Hin. set_solver.
    + intros h' [->|Hin]%elem_of_cons; [assumption|].
      apply Hnew in Hin. rewrite Hs' in Hin. simpl in Hin. set_solver.
Qed.

(** X5. After a run from the initial store, [check_voted] answers
    [has_voted = true] for a request exactly when a vote of its identity was
    accepted during the run. *)
Theorem check_voted_reports_accepted calls req h :
  client_identity digest req = Some h →
  ∃ b, (check_voted digest req (state_after digest calls)).1 = Success (HasVoted b) ∧
       (b = true ↔ h ∈ (accepted digest calls initial_store).*2).
Proof.
  intros Hid. unfold client_identity in Hid.
  cbv [check_voted try_except bind lift ret raise read_voted].
  destruct (get_client_ip req) as [e|ip]; [discriminate|].
  injection Hid as <-. simpl. eexists. split; [reflexivity|].
  rewrite bool_decide_eq_true. unfold state_after.
  rewrite voted_ips_after. simpl. set_solver.
Qed.

End AccountingTheorems.

Lemma check_voted_reports_accepted_witness :
  let req := vote_request "10.0.0.1" (JInt 3) all_follows in
  let calls := [SubmitVote req; GetVotes] in
  client_identity sample_digest req = Some (sample_digest "10.0.0.1") ∧
  ∃ b, (check_voted sample_digest req (state_after sample_digest calls)).1
         = Success (HasVoted b) ∧
       (b = true ↔
        sample_digest "10.0.0.1" ∈ (accepted sample_digest calls initial_store).*2).
Proof.
  intros req calls. split; [reflexivity|].
  apply (check_voted_reports_accepted sample_digest calls req). reflexivity.
Defined.

(** ** Identities *)

Section Identities.

Variable digest : string → string.

(** X6. Once [check_voted] has answered [has_voted = true] for an identity,
    it keeps answering so after any further calls, and no vote of that
    identity succeeds any more, whatever its body. *)
Theorem voted_identity_stays_rejected req req' s calls :
  (check_voted digest req s).1 = Success (HasVoted true) →
  client_identity digest req' = client_identity digest req →
  is_vote_success (submit_vote digest req' (serve digest calls s).2).1 = false ∧
  (submit_vote digest req' (serve digest calls s).2).2 = (serve digest calls s).2 ∧
  (check_voted digest req (serve digest calls s).2).1 = Success (HasVoted true).
Proof.
  unfold client_identity.
  cbv [check_voted try_except bind lift ret raise read_voted].
  destruct (get_client_ip req) as [e|ip] eqn:Hip; [discriminate|]. simpl.
  intros [= Hvoted] Hsame. apply bool_decide_eq_true in Hvoted.
  assert (hash_ip digest ip ∈ voted_ips (serve digest calls s).2) as Hafter.
  { rewrite voted_ips_after. set_solver. }
  destruct (voted_identity_fails digest req' (serve digest calls s).2
              (hash_ip digest ip)) as [Hfail Hkeep]; try assumption.
  repeat split; try assumption.
  by rewrite bool_decide_eq_true_2.
Qed.

(** X7. When the [X-Forwarded-For] header is present it alone decides the
    identity: the peer address [REMOTE_ADDR] may change or be missing
    without changing what [submit_vote] and [check_voted] answer or do. *)
Theorem forwarded_header_decides req forwarded addr s :
  HTTP_X_FORWARDED_FOR req = Some forwarded →
  client_identity digest (with_remote_addr req addr) = Some (hash_ip digest forwarded) ∧
  submit_vote digest (with_remote_addr req addr) s = submit_vote digest req s ∧
  check_voted digest (with_remote_addr req addr) s = check_voted digest req s.
Proof.
  intros Hfwd.
  assert (get_client_ip (with_remote_addr req addr) = inr forwarded) as Hnew
    by (unfold get_client_ip; simpl; by rewrite Hfwd).
  assert (get_client_ip req = inr forwarded) as Hold
    by (unfold get_client_ip; by rewrite Hfwd).
  split; [unfold client_identity; by rewrite Hnew|].
  split.
  - unfold submit_vote, submit_vote_body. rewrite Hnew, Hold. reflexivity.
  - unfold check_voted. rewrite Hnew, Hold. reflexivity.
Qed.

Lemma well_formed_vote_kept req s k n h :
  votes_storage s !! k = Some n →
  well_formed_vote req (votes_storage s) →
  well_formed_vote req
    (votes_storage {| votes_storage := <[k:=n + 1]> (votes_storage s);
                      voted_ips := {[h]} ∪ voted_ips s |}).
Proof.
  intros Hk (data & v & follows & ? & ? & ? & (j & ? & Hj) & ? & ?).
  exists data, v, follows. repeat split; try assumption.
  exists j. split; [assumption|]. simpl.
  destruct (decide (k = j)) as [->|Hne].
  - rewrite lookup_insert_eq. eauto.
  - by rewrite lookup_insert_ne.
Qed.

(** X8. Well-formed votes for registered items from pairwise different
    identities, none of which has voted, all succeed when served one after
    another.  The identity being the digest of a header the client sends,
    one peer address can vote once per header value. *)
Theorem distinct_identities_all_succeed reqs hs s :
  Forall2 (λ req h, client_identity digest req = Some h) reqs hs →
  NoDup hs →
  (∀ h, h ∈ hs → h ∉ voted_ips s) →
  (∀ req, req ∈ reqs → well_formed_vote req (votes_storage s)) →
  Forall (λ r, is_vote_success r = true) (serve digest (SubmitVote <$> reqs) s).1 ∧
  successes (serve digest (SubmitVote <$> reqs) s).1 = length reqs.
Proof.
  intros Hids. revert s.
  induction Hids as [|req h reqs hs Hid _ IH]; intros s Hnodup Hfresh Hwf.
  - split; [constructor|reflexivity].
  - rewrite fmap_cons, serve_cons. cbn [fst snd dispatch].
    destruct (Hwf req) as (data & v & follows & Hdata & Hv & Htruthy
                           & (k & Hkey & n & Hn) & Hf & Hmet); [by left|].
    rewrite (submit_vote_past_entry digest req v h)
      by (eapply entry_checks_pass; eassumption).
    rewrite bool_decide_eq_false_2 by (apply Hfresh; by left).
    rewrite Hkey, Hn. cbn [fst snd].
    apply NoDup_cons in Hnodup as [Hnotin Hnodup].
    destruct (IH {| votes_storage := <[k:=n + 1]> (votes_storage s);
                    voted_ips := {[h]} ∪ voted_ips s |}) as [Hall Hcount];
      [assumption| | |].
    + intros h' Hh'. simpl.
      assert (h' ∉ voted_ips s) by (apply Hfresh; by right).
      assert (h' ≠ h) by (intros ->; contradiction). set_solver.
    + intros r Hr. apply well_formed_vote_kept; [assumption|].
      apply Hwf. by right.
    + split; [constructor; [reflexivity|assumption]|].
      rewrite successes_cons, Hcount. reflexivity.
Qed.

End Identities.

(** One peer address, two different [X-Forwarded-For] values: two votes. *)
Lemma distinct_identities_all_succeed_witness :
  let first := forwarded_vote "10.0.0.1" "198.51.100.1" (JInt 3) all_follows in
  let second := forwarded_vote "10.0.0.1" "198.51.100.2" (JInt 3) all_follows in
  REMOTE_ADDR first = REMOTE_ADDR second ∧
  successes (serve sample_digest [SubmitVote first; SubmitVote second]
               initial_store).1 = 2%nat.
Proof.
  intros first second. split; [reflexivity|].
  apply (distinct_identities_all_succeed sample_digest [first; second]
           [sample_digest "198.51.100.1"; sample_digest "198.51.100.2"]
           initial_store).
  - repeat constructor.
  - repeat constructor; set_solver.
  - intros h _. simpl. set_solver.
  - intros r Hr.
    exists (JObj [("video_id", JInt 3); ("social_follows", all_follows)]),
           (JInt 3), all_follows.
    repeat (apply elem_of_cons in Hr as [->|Hr];
            [repeat split; try reflexivity;
             exists 3; split; [reflexivity|]; exists 0; reflexivity|]).
    inversion Hr.
Defined.

Lemma voted_identity_stays_rejected_witness :
  let req := vote_request "10.0.0.1" (JInt 3) all_follows in
  let again := vote_request "10.0.0.1" (JInt 5) all_follows in
  let s := state_after sample_digest [SubmitVote req] in
  (check_voted sample_digest req s).1 = Success (HasVoted true) ∧
  is_vote_success
    (submit_vote sample_digest again (serve sample_digest [GetAnalytics] s).2).1
    = false.
Proof.
  intros req again s.
  assert ((check_voted sample_digest req s).1 = Success (HasVoted true)) as Hvoted
    by (vm_compute; reflexivity).
  split; [exact Hvoted|].
  apply (voted_identity_stays_rejected sample_digest req again s [GetAnalytics]
           Hvoted eq_refl).
Defined.

Lemma forwarded_header_decides_witness :
  let req := forwarded_vote "10.0.0.1" "198.51.100.1" (JInt 3) all_follows in
  HTTP_X_FORWARDED_FOR req = Some "198.51.100.1" ∧
  submit_vote sample_digest (with_remote_addr req None) initial_store
    = submit_vote sample_digest req initial_store.
Proof.
  intros req. split; [reflexivity|].
  apply (forwarded_header_decides sample_digest req "198.51.100.1" None
           initial_store eq_refl).
Defined.

(** ** The answers of [submit_vote] *)

Section Answers.

Variable digest : string → string.

Lemma py_get_raises obj key default e :
  py_get obj key default = inl e → e = AttributeError.
Proof. destruct obj; simpl; congruence. Qed.

Lemma first_unmet_raises follows platforms e :
  first_unmet follows platforms = inl e → e = AttributeError.
Proof.
  induction platforms as [|p ps IH]; simpl; [discriminate|].
  destruct (py_get follows p (JBool false)) as [e0|flag] eqn:Hget.
  - intros [= <-]. by apply py_get_raises in Hget.
  - destruct (truthy flag); [assumption|discriminate].
Qed.

Lemma first_unmet_member follows platforms p :
  first_unmet follows platforms = inr (Some p) → p ∈ platforms.
Proof.
  induction platforms as [|p0 ps IH]; simpl; [discriminate|].
  destruct (py_get follows p0 (JBool false)) as [e0|flag]; [discriminate|].
  destruct (truthy flag).
  - intros H. right. auto.
  - intros [= <-]. by left.
Qed.

(** X9. In every reachable store [submit_vote] gives one of six answers:
    'Video ID is required', 'Must follow on p' for a required platform [p],
    'You have already voted', 'Invalid video ID', a success whose
    [new_vote_count] is at least 1 and at most the total of all counters,
    or status 500 for a body that cannot be read ([BadRequest],
    [AttributeError]), a missing peer address ([KeyError]) or an unhashable
    id ([TypeError]). *)
Theorem submit_vote_answers calls req :
  let s := state_after digest calls in
  let r := (submit_vote digest req s).1 in
  let s' := (submit_vote digest req s).2 in
  r = VideoIdRequired ∨
  (∃ p, p ∈ required_platforms ∧ r = MissingRequirement p) ∨
  r = AlreadyVoted ∨
  r = InvalidItem ∨
  (∃ n, r = Success (VoteSubmitted n) ∧ 1 ≤ n ≤ sum_values (votes_storage s')) ∨
  (∃ e, r = Err500 e ∧
        (e = BadRequest ∨ e = AttributeError ∨ e = KeyError ∨ e = TypeError)).
Proof.
  intros s r s'. subst r s'.
  destruct (reachable_consistent digest calls) as [Hpos Hsum]. fold s in Hpos, Hsum.
  destruct (entry_checks digest req) as [e|[r|[video_id h]]] eqn:Hentry.
  - rewrite (submit_vote_raises _ _ _ _ Hentry). simpl.
    do 5 right. exists e. split; [reflexivity|].
    revert Hentry. unfold entry_checks.
    destruct (request_get_json req) as [e0|data] eqn:Hjson.
    { unfold request_get_json in Hjson. destruct (get_json req); [discriminate|].
      intros [= <-]. injection Hjson as <-. auto. }
    destruct (py_get data "video_id" JNull) as [e0|vid] eqn:Hvid.
    { intros [= <-]. apply py_get_raises in Hvid. auto. }
    destruct (py_get data "social_follows" (JObj [])) as [e0|follows] eqn:Hf.
    { intros [= <-]. apply py_get_raises in Hf. auto. }
    destruct (negb (truthy vid)); [discriminate|].
    destruct (first_unmet follows required_platforms) as [e0|[p|]] eqn:Hfirst.
    { intros [= <-]. apply first_unmet_raises in Hfirst. auto. }
    { discriminate. }
    unfold get_client_ip.
    destruct (HTTP_X_FORWARDED_FOR req); [discriminate|].
    destruct (REMOTE_ADDR req); [discriminate|]. intros [= <-]. auto.
  - rewrite (submit_vote_returns_early _ _ _ _ Hentry). simpl.
    revert Hentry. unfold entry_checks.
    destruct (request_get_json req) as [e0|data]; [discriminate|].
    destruct (py_get data "video_id" JNull) as [e0|vid]; [discriminate|].
    destruct (py_get data "social_follows" (JObj [])) as [e0|follows]; [discriminate|].
    destruct (negb (truthy vid)); [intros [= <-]; by left|].
    destruct (first_unmet follows required_platforms) as [e0|[p|]] eqn:Hfirst;
      [discriminate| |destruct (get_client_ip req); discriminate].
    intros [= <-]. right. left. exists p. split; [|reflexivity].
    by apply first_unmet_member in Hfirst.
  - rewrite (submit_vote_past_entry _ _ _ _ _ Hentry).
    destruct (bool_decide (h ∈ voted_ips s)); [simpl; auto|].
    destruct (as_key video_id) as [k| |]; simpl.
    + destruct (votes_storage s !! k) as [n|] eqn:Hk; simpl; [|auto].
      do 4 right. left. exists (n + 1). split; [reflexivity|].
      destruct (sum_values_bounds _ _ _ Hpos Hk).
      rewrite (sum_values_increment _ _ _ Hk). lia.
    + auto.
    + do 5 right. exists TypeError. auto.
Qed.

(** ** The items *)

Lemma initial_votes_keys k : is_Some (initial_votes !! k) ↔ 1 ≤ k ≤ 6.
Proof.
  split.
  - intros [n Hk]. unfold initial_votes in Hk.
    repeat (apply lookup_insert_Some in Hk as [[<- _]|[_ Hk]]; [lia|]).
    by rewrite lookup_empty in Hk.
  - intros Hk.
    assert (k = 1 ∨ k = 2 ∨ k = 3 ∨ k = 4 ∨ k = 5 ∨ k = 6)
      as [->|[->|[->|[->|[->| ->]]]]] by lia; exists 0; reflexivity.
Qed.

Lemma reachable_dom calls :
  dom (votes_storage (state_after digest calls)) = dom initial_votes.
Proof.
  unfold state_after.
  apply (serve_invariant digest (λ s, dom (votes_storage s) = dom initial_votes));
    [reflexivity|].
  intros s k h n Hdom _ Hk _. simpl. rewrite dom_insert_L, Hdom.
  assert (k ∈ dom initial_votes); [|set_solver].
  rewrite <- Hdom. apply elem_of_dom. eauto.
Qed.

Lemma reachable_items calls k :
  is_Some (votes_storage (state_after digest calls) !! k) ↔ 1 ≤ k ≤ 6.
Proof.
  rewrite <- initial_votes_keys, <- !elem_of_dom, reachable_dom. reflexivity.
Qed.

(** X10. No call adds or removes an item: after any run from the initial
    store the counters are those of the ids 1 to 6, and [get_analytics]
    reports [videos_count = 6] with one count and one percentage per id. *)
Theorem items_are_fixed calls :
  let s := state_after digest calls in
  (∀ k, is_Some (votes_storage s !! k) ↔ 1 ≤ k ≤ 6) ∧
  ∃ a, (get_analytics s).1 = Success (Analytics a) ∧
       videos_count a = 6 ∧
       (∀ k, is_Some (vote_counts a !! k) ↔ 1 ≤ k ≤ 6) ∧
       (∀ k, is_Some (vote_percentages a !! k) ↔ 1 ≤ k ≤ 6).
Proof.
  intros s. split; [apply reachable_items|].
  pose proof (reachable_consistent digest calls) as Hs. fold s in Hs.
  destruct (get_analytics_consistent s Hs) as (filled & -> & Hfilled).
  eexists. split; [reflexivity|]. simpl. split; [|split].
  - rewrite <- size_dom. unfold s. rewrite reachable_dom. reflexivity.
  - apply reachable_items.
  - intros k. rewrite <- (reachable_items calls k). fold s. split.
    + intros [p Hp]. apply Hfilled in Hp as (count & Hk & _). eauto.
    + intros [count Hk].
      destruct Hs as [Hpos _].
      destruct (sum_values_bounds _ _ _ Hpos Hk) as [Hc0 Hct].
      destruct (decide (sum_values (votes_storage s) = 0)) as [Hzero|Hnz].
      * exists (PyInt 0). apply Hfilled. exists count. split; [assumption|].
        apply percentage_of_no_votes. lia.
      * destruct (percentage_of_spec count (sum_values (votes_storage s)))
          as (p & _ & Hp & _); [lia|lia|].
        exists (PyFloat (Finite p)). apply Hfilled. eauto.
Qed.

(** ** Social verification *)

(** X11. [verify_social_follows] checks nothing: for every body that is a
    dict it answers success and returns the [platforms] value as sent (an
    empty dict when absent), whatever the flags say; and serving it changes
    no later answer and no later store. *)
Theorem verify_social_follows_echoes req fields calls s :
  get_json req = Some (JObj fields) →
  (verify_social_follows req s).1 =
    Success (Verified (match assoc "platforms" fields with
                       | Some platforms => platforms
                       | None => JObj []
                       end)) ∧
  serve digest (VerifySocial req :: calls) s =
    ((verify_social_follows req s).1 :: (serve digest calls s).1,
     (serve digest calls s).2).
Proof.
  intros Hbody. split.
  - cbv [verify_social_follows try_except bind lift ret raise request_get_json].
    rewrite Hbody. reflexivity.
  - rewrite serve_cons. cbn [dispatch].
    rewrite verify_social_follows_effect. reflexivity.
Qed.

End Answers.

Lemma verify_social_follows_echoes_witness :
  let claim := JObj [("instagram", JBool false)] in
  let req := {| get_json := Some (JObj [("platforms", claim)]);
                HTTP_X_FORWARDED_FOR := None; REMOTE_ADDR := None |} in
  (verify_social_follows req initial_store).1 = Success (Verified claim).
Proof.
  intros claim req.
  apply (verify_social_follows_echoes sample_digest req
           [("platforms", claim)] [] initial_store eq_refl).
Defined.

(** ** Order of the percentages *)

Section Ranking.

Variable digest : string → string.

Lemma round_half_even_mono a b c d :
  0 < b → 0 < d → a * d ≤ c * b → round_half_even a b ≤ round_half_even c d.
Proof.
  intros Hb Hd Hle. unfold round_half_even.
  pose proof (Z.div_mod a b ltac:(lia)) as Ha.
  pose proof (Z.mod_pos_bound a b Hb) as Hra.
  pose proof (Z.div_mod c d ltac:(lia)) as Hc.
  pose proof (Z.mod_pos_bound c d Hd) as Hrc.
  set (fa := a / b) in *. set (ra := a mod b) in *.
  set (fc := c / d) in *. set (rc := c mod d) in *.
  assert (fa ≤ fc) as Hf.
  { assert (b * d * fa ≤ a * d) by nia.
    assert (c * b < b * d * (fc + 1)) by nia.
    apply Z.lt_succ_r. apply (Z.mul_lt_mono_pos_l (b * d)); [nia|lia]. }
  destruct (Z.eq_dec fa fc) as [Heq|Hne].
  - rewrite Heq in *. assert (ra * d ≤ rc * b) as Hr by nia.
    destruct (Z.compare_spec (2 * ra) b) as [Ea|La|Ga];
      destruct (Z.compare_spec (2 * rc) d) as [Ec|Lc|Gc];
      destruct (Z.even fc); try lia; nia.
  - assert (fa + 1 ≤ fc) by lia.
    destruct (2 * ra ?= b); destruct (2 * rc ?= d);
      destruct (Z.even fa); destruct (Z.even fc); lia.
Qed.

Lemma round_half_even_ge n d K : 0 < d → K * d ≤ n → K ≤ round_half_even n d.
Proof.
  intros Hd Hn. unfold round_half_even.
  pose proof (Z.div_mod n d ltac:(lia)) as Hdm.
  pose proof (Z.mod_pos_bound n d Hd) as Hmod.
  assert (K ≤ n / d) as Hfl by nia.
  destruct (2 * (n mod d) ?= d); [destruct (Z.even (n / d))|..]; lia.
Qed.

Lemma binade_mono n1 d1 n2 d2 :
  0 < n1 → 0 < d1 → 0 < n2 → 0 < d2 → n1 * d2 ≤ n2 * d1 →
  binade n1 d1 ≤ binade n2 d2.
Proof.
  intros Hn1 Hd1 Hn2 Hd2 Hle.
  set (e1 := binade n1 d1). set (e2 := binade n2 d2).
  destruct (Z.le_gt_cases e1 e2) as [?|Hgt]; [assumption|exfalso].
  set (a1 := Z.max e1 0). set (b1 := Z.max (- e1) 0).
  set (a2 := Z.max e2 0). set (b2 := Z.max (- e2) 0).
  destruct (binade_spec n1 d1 a1 b1) as [Hlo1 _]; try lia.
  destruct (binade_spec n2 d2 a2 b2) as [_ Hup2]; try lia.
  assert (0 < 2 ^ a1) by (apply Z.pow_pos_nonneg; lia).
  assert (0 < 2 ^ b1) by (apply Z.pow_pos_nonneg; lia).
  assert (0 < 2 ^ a2) by (apply Z.pow_pos_nonneg; lia).
  assert (0 < 2 ^ b2) by (apply Z.pow_pos_nonneg; lia).
  assert (2 ^ (a2 + b1 + 1) ≤ 2 ^ (a1 + b2)) as Hpow
    by (apply Z.pow_le_mono_r; lia).
  rewrite Z.pow_add_r, Z.pow_add_r, Z.pow_1_r in Hpow by lia.
  rewrite Z.pow_add_r in Hpow by lia.
  (* d1 2^a1 ≤ n1 2^b1 ; n2 2^b2 < 2 d2 2^a2 *)
  assert (d1 * 2 ^ a1 * (2 ^ b2 * d2) ≤ n1 * 2 ^ b1 * (2 ^ b2 * d2)) as Hs1 by nia.
  assert (n1 * d2 * (2 ^ b1 * 2 ^ b2) ≤ n2 * d1 * (2 ^ b1 * 2 ^ b2)) as Hs2 by nia.
  assert (n2 * 2 ^ b2 * (d1 * 2 ^ b1) < 2 * (d2 * 2 ^ a2) * (d1 * 2 ^ b1)) as Hs3 by nia.
  assert (d1 * d2 * (2 ^ a1 * 2 ^ b2) < d1 * d2 * (2 ^ a2 * 2 ^ b1 * 2)) as Hs4 by nia.
  assert (0 < d1 * d2) by nia.
  nia.
Qed.

Lemma nearest_mono q1 q2 b r1 r2 :
  0 ≤ b ≤ 51 → (0 <= q1)%Q → (q1 <= q2)%Q → (q2 <= 2 ^ b # 1)%Q →
  nearest q1 = Some r1 → nearest q2 = Some r2 → (r1 <= r2)%Q.
Proof.
  intros Hb Hq1 Hle Hq2 Hr1 Hr2.
  assert (0 < 2 ^ b) as Hpb by (apply Z.pow_pos_nonneg; lia).
  destruct (nearest_bounded q2 (2 ^ b) b) as (r2' & Hr2' & Hr2pos & _);
    [lia|lia| |assumption|].
  { eapply Qle_trans; eassumption. }
  assert (r2' = r2) as -> by congruence. clear Hr2'.
  destruct q1 as [n1 p1], q2 as [n2 p2].
  unfold Qle in Hq1, Hle, Hq2. simpl in Hq1, Hle, Hq2.
  revert Hr1 Hr2. unfold nearest. cbn [Qnum Qden].
  destruct (Z.eqb_spec n1 0) as [->|Hn1]; [by intros [= <-] _|].
  destruct (Z.eqb_spec n2 0) as [->|Hn2]; [lia|].
  assert (0 < n1) as Hp1 by lia. assert (0 < n2) as Hp2 by nia.
  rewrite (Z.abs_eq n1), (Z.abs_eq n2), (Z.sgn_pos n1), (Z.sgn_pos n2) by lia.
  set (d1 := Z.pos p1) in *. set (d2 := Z.pos p2) in *.
  assert (0 < d1) as Hd1 by (unfold d1; lia).
  assert (0 < d2) as Hd2 by (unfold d2; lia).
  pose proof (binade_mono n1 d1 n2 d2 Hp1 Hd1 Hp2 Hd2 Hle) as Hmono.
  pose proof (binade_le n2 d2 b Hp2 Hd2 ltac:(lia) ltac:(lia)) as He2.
  destruct (nearest_magnitude n1 d1 Hp1 Hd1) as [_ Hm1].
  pose proof (binade_spec n2 d2 (Z.max (binade n2 d2) 0) (Z.max (- binade n2 d2) 0)
                Hp2 Hd2 ltac:(lia) ltac:(lia) ltac:(lia)) as [Hlo2 _].
  set (e1 := binade n1 d1) in *. set (e2 := binade n2 d2) in *.
  set (s1 := Z.max e1 emin - (prec - 1)) in *.
  set (s2 := Z.max e2 emin - (prec - 1)).
  assert (s1 ≤ s2 ∧ s2 < 0) as [Hs12 Hs2] by (unfold s1, s2, emin, prec; lia).
  destruct (Z.leb_spec 0 s1) as [?|_]; [lia|].
  destruct (Z.leb_spec 0 s2) as [?|_]; [lia|].
  destruct (Hm1 ltac:(lia)) as [[_ Hm1up] _]. clear Hm1.
  set (m1 := round_half_even (n1 * 2 ^ (- s1)) d1) in *.
  set (m2 := round_half_even (n2 * 2 ^ (- s2)) d2).
  intros [= <-] [= <-]. rewrite !Qred_correct.
  assert (0 < 2 ^ (- s1)) as HP1 by (apply Z.pow_pos_nonneg; lia).
  assert (0 < 2 ^ (- s2)) as HP2 by (apply Z.pow_pos_nonneg; lia).
  unfold Qle. simpl. rewrite !Z2Pos.id by lia.
  destruct (Z.eq_dec s1 s2) as [Heq|Hne].
  - assert (m1 ≤ m2); [|rewrite Heq in *; nia].
    subst m1 m2. rewrite Heq. apply round_half_even_mono; try assumption. nia.
  - assert (2 ^ (- s1) = 2 ^ (- s2) * 2 ^ (s2 - s1)) as Hsplit
      by (rewrite <- Z.pow_add_r by lia; f_equal; lia).
    assert (2 ≤ 2 ^ (s2 - s1)) as Hgap.
    { change 2 with (2 ^ 1) at 1. apply Z.pow_le_mono_r; lia. }
    assert (2 ^ 52 ≤ m2) as Hm2.
    { apply round_half_even_ge; [assumption|].
      assert (emin < e2) as Hnorm by (unfold s1, s2, emin, prec in *; lia).
      assert (- s2 = 52 - e2) as Hk2 by (unfold s2, emin, prec in *; lia).
      rewrite Hk2.
      destruct (Z.le_gt_cases 0 e2) as [Hpos|Hneg].
      - rewrite Z.max_l, Z.max_r in Hlo2 by lia. rewrite Z.pow_0_r in Hlo2.
        assert (2 ^ 52 = 2 ^ e2 * 2 ^ (52 - e2)) as Hpw
          by (rewrite <- Z.pow_add_r by lia; f_equal; lia).
        assert (0 < 2 ^ (52 - e2)) by (apply Z.pow_pos_nonneg; lia).
        rewrite Hpw. nia.
      - rewrite Z.max_r, Z.max_l in Hlo2 by lia. rewrite Z.pow_0_r in Hlo2.
        assert (2 ^ (52 - e2) = 2 ^ (- e2) * 2 ^ 52) as Hpw
          by (rewrite <- Z.pow_add_r by lia; f_equal; lia).
        rewrite Hpw. nia. }
    unfold prec in Hm1up. change (2 ^ 53) with (2 * 2 ^ 52) in Hm1up.
    rewrite Hsplit.
    assert (m1 * 2 ^ (- s2) ≤ 2 * m2 * 2 ^ (- s2)) by nia.
    nia.
Qed.

Lemma percentage_of_mono c1 c2 total x1 x2 :
  0 ≤ c1 ≤ c2 → c2 ≤ total → 0 < total →
  percentage_of c1 total = inr (PyFloat (Finite x1)) →
  percentage_of c2 total = inr (PyFloat (Finite x2)) →
  (x1 <= x2)%Q.
Proof.
  intros Hc1 Hc2 Htotal. unfold percentage_of, int_true_div.
  destruct (Z.ltb_spec 0 total) as [_|?]; [|lia].
  destruct (Z.eqb_spec total 0) as [?|_]; [lia|].
  rewrite Z.sgn_pos, Z.abs_eq by lia.
  set (q1 := (1 * c1 # Z.to_pos total)%Q). set (q2 := (1 * c2 # Z.to_pos total)%Q).
  assert (0 <= q1)%Q as Hq1 by (unfold q1, Qle; simpl; lia).
  assert (q1 <= q2)%Q as Hq12 by (unfold q1, q2, Qle; simpl; nia).
  assert (q2 <= 1 # 1)%Q as Hq2
    by (unfold q2, Qle; simpl; rewrite Z2Pos.id by lia; lia).
  destruct (nearest_bounded q1 1 0) as (a1 & Ha1 & Ha1lo & Ha1hi & _);
    [lia|lia|assumption|lra|].
  destruct (nearest_bounded q2 1 0) as (a2 & Ha2 & Ha2lo & Ha2hi & _);
    [lia|lia|lra|assumption|].
  pose proof (nearest_mono q1 q2 0 a1 a2 ltac:(lia) Hq1 Hq12 Hq2 Ha1 Ha2) as Ha12.
  rewrite Ha1, Ha2, float_of_int_100. cbn [py_round1 float_mul float_round1].
  destruct (nearest_bounded (a1 * (100 # 1)) 100 7)
    as (y1 & Hy1 & Hy1lo & Hy1hi & _); [lia|lia|lra|lra|].
  destruct (nearest_bounded (a2 * (100 # 1)) 100 7)
    as (y2 & Hy2 & Hy2lo & Hy2hi & _); [lia|lia|lra|lra|].
  assert (y1 <= y2)%Q as Hy12.
  { apply (nearest_mono (a1 * (100 # 1)) (a2 * (100 # 1)) 7 y1 y2);
      try assumption; try lia; try lra.
    change (2 ^ 7 # 1)%Q with (128 # 1)%Q. lra. }
  rewrite Hy1, Hy2. cbn [py_round1 float_round1].
  destruct (round_tenths_bounds y1 Hy1lo Hy1hi) as (Hj1 & _ & _).
  destruct (round_tenths_bounds y2 Hy2lo Hy2hi) as (Hj2 & _ & _).
  assert (round_tenths y1 ≤ round_tenths y2) as Hj12.
  { unfold round_tenths. apply round_half_even_mono; [lia|lia|].
    unfold Qle in Hy12. lia. }
  destruct (nearest (round_tenths y1 # 10)) as [z1|] eqn:Hz1; [|discriminate].
  destruct (nearest (round_tenths y2 # 10)) as [z2|] eqn:Hz2; [|discriminate].
  intros [= <-] [= <-].
  apply (nearest_mono (round_tenths y1 # 10) (round_tenths y2 # 10) 7 z1 z2);
    try assumption; try lia; unfold Qle; simpl; lia.
Qed.

(** X12. The percentages follow the counts: in every reachable store an item
    with no more votes than another is reported with no larger a
    percentage, and items with equal counts with equal percentages. *)
Theorem percentages_follow_counts calls k1 k2 c1 c2 :
  let s := state_after digest calls in
  votes_storage s !! k1 = Some c1 →
  votes_storage s !! k2 = Some c2 →
  c1 ≤ c2 →
  ∃ a p1 p2,
    (get_analytics s).1 = Success (Analytics a) ∧
    vote_percentages a !! k1 = Some p1 ∧
    vote_percentages a !! k2 = Some p2 ∧
    percentage_le p1 p2 ∧
    (c1 = c2 → p1 = p2).
Proof.
  intros s Hk1 Hk2 Hle.
  pose proof (reachable_consistent digest calls) as Hs. fold s in Hs.
  destruct (get_analytics_consistent s Hs) as (filled & -> & Hfilled).
  destruct Hs as [Hpos _].
  destruct (sum_values_bounds _ _ _ Hpos Hk1) as [Hc1 Ht1].
  destruct (sum_values_bounds _ _ _ Hpos Hk2) as [Hc2 Ht2].
  set (total := sum_values (votes_storage s)) in *.
  destruct (decide (total = 0)) as [Hzero|Hnz].
  - eexists. exists (PyInt 0), (PyInt 0). split; [reflexivity|]. simpl.
    split; [apply Hfilled; exists c1; split;
            [assumption|apply percentage_of_no_votes; lia]|].
    split; [apply Hfilled; exists c2; split;
            [assumption|apply percentage_of_no_votes; lia]|].
    split; [lia|reflexivity].
  - destruct (percentage_of_spec c1 total) as (x1 & _ & Hx1 & _); [lia|lia|].
    destruct (percentage_of_spec c2 total) as (x2 & _ & Hx2 & _); [lia|lia|].
    eexists. exists (PyFloat (Finite x1)), (PyFloat (Finite x2)).
    split; [reflexivity|]. simpl.
    split; [apply Hfilled; eauto|]. split; [apply Hfilled; eauto|].
    split.
    + apply (percentage_of_mono c1 c2 total); try assumption; lia.
    + intros ->. congruence.
Qed.

End Ranking.

Lemma percentages_follow_counts_witness :
  let calls := [SubmitVote (vote_request "10.0.0.1" (JInt 3) all_follows);
                SubmitVote (vote_request "10.0.0.2" (JInt 3) all_follows);
                SubmitVote (vote_request "10.0.0.3" (JInt 5) all_follows)] in
  let s := state_after sample_digest calls in
  votes_storage s !! 5 = Some 1 ∧
  votes_storage s !! 3 = Some 2 ∧
  ∃ a p1 p2,
    (get_analytics s).1 = Success (Analytics a) ∧
    vote_percentages a !! 5 = Some p1 ∧
    vote_percentages a !! 3 = Some p2 ∧
    percentage_le p1 p2 ∧
    (1 = 2 → p1 = p2).
Proof.
  intros calls s.
  assert (votes_storage s !! 5 = Some 1) as H5 by (vm_compute; reflexivity).
  assert (votes_storage s !! 3 = Some 2) as H3 by (vm_compute; reflexivity).
  split; [exact H5|]. split; [exact H3|].
  apply (percentages_follow_counts sample_digest calls 5 3 1 2 H5 H3). lia.
Defined.

(** ** Sum of the percentages *)

Section PercentageSum.

Variable digest : string → string.

Lemma six_counters (m : gmap Z Z) :
  dom m = dom initial_votes →
  ∃ c1 c2 c3 c4 c5 c6,
    m !! 1 = Some c1 ∧ m !! 2 = Some c2 ∧ m !! 3 = Some c3 ∧
    m !! 4 = Some c4 ∧ m !! 5 = Some c5 ∧ m !! 6 = Some c6 ∧
    sum_values m = c1 + c2 + c3 + c4 + c5 + c6.
Proof.
  intros Hdom.
  assert (∀ k, 1 ≤ k ≤ 6 → is_Some (m !! k)) as Hsome.
  { intros k Hk. apply elem_of_dom. rewrite Hdom. apply elem_of_dom.
    by apply initial_votes_keys. }
  destruct (Hsome 1) as [c1 H1]; [lia|]. destruct (Hsome 2) as [c2 H2]; [lia|].
  destruct (Hsome 3) as [c3 H3]; [lia|]. destruct (Hsome 4) as [c4 H4]; [lia|].
  destruct (Hsome 5) as [c5 H5]; [lia|]. destruct (Hsome 6) as [c6 H6]; [lia|].
  exists c1, c2, c3, c4, c5, c6. repeat (split; [assumption|]).
  assert (m = <[1:=c1]> (<[2:=c2]> (<[3:=c3]> (<[4:=c4]> (<[5:=c5]> (<[6:=c6]> ∅))))))
    as ->.
  { apply map_eq. intros k.
    destruct (decide (k = 1)) as [->|?]; [by rewrite lookup_insert_eq|].
    rewrite lookup_insert_ne by congruence.
    destruct (decide (k = 2)) as [->|?]; [by rewrite lookup_insert_eq|].
    rewrite lookup_insert_ne by congruence.
    destruct (decide (k = 3)) as [->|?]; [by rewrite lookup_insert_eq|].
    rewrite lookup_insert_ne by congruence.
    destruct (decide (k = 4)) as [->|?]; [by rewrite lookup_insert_eq|].
    rewrite lookup_insert_ne by congruence.
    destruct (decide (k = 5)) as [->|?]; [by rewrite lookup_insert_eq|].
    rewrite lookup_insert_ne by congruence.
    destruct (decide (k = 6)) as [->|?]; [by rewrite lookup_insert_eq|].
    rewrite lookup_insert_ne by congruence. rewrite lookup_empty.
    apply not_elem_of_dom. rewrite Hdom. rewrite elem_of_dom, initial_votes_keys.
    lia. }
  rewrite !sum_values_insert_fresh by (by simplify_map_eq).
  unfold sum_values. rewrite map_fold_empty. lia.
Qed.

Lemma exact_percentages_add_up c1 c2 c3 c4 c5 c6 total :
  0 < total → c1 + c2 + c3 + c4 + c5 + c6 = total →
  (exact_percentage c1 total + exact_percentage c2 total + exact_percentage c3 total
   + exact_percentage c4 total + exact_percentage c5 total
   + exact_percentage c6 total == 100 # 1)%Q.
Proof.
  intros Htotal Hsum. unfold exact_percentage.
  rewrite !Qinv_plus_distr. unfold Qeq. simpl.
  rewrite Z2Pos.id by lia. lia.
Qed.

(** X13. With at least one vote, the six percentages [get_analytics] reports
    add up to 100 within three tenths (six times half a tenth, and the
    float rounding error): each is rounded on its own and the sum is not
    corrected. *)
Theorem percentages_sum_near_100 calls :
  let s := state_after digest calls in
  0 < sum_values (votes_storage s) →
  ∃ a x1 x2 x3 x4 x5 x6,
    (get_analytics s).1 = Success (Analytics a) ∧
    vote_percentages a !! 1 = Some (PyFloat (Finite x1)) ∧
    vote_percentages a !! 2 = Some (PyFloat (Finite x2)) ∧
    vote_percentages a !! 3 = Some (PyFloat (Finite x3)) ∧
    vote_percentages a !! 4 = Some (PyFloat (Finite x4)) ∧
    vote_percentages a !! 5 = Some (PyFloat (Finite x5)) ∧
    vote_percentages a !! 6 = Some (PyFloat (Finite x6)) ∧
    ((100 # 1) - (3 # 10) - (3 # 8796093022208)
       <= x1 + x2 + x3 + x4 + x5 + x6)%Q ∧
    (x1 + x2 + x3 + x4 + x5 + x6
       <= (100 # 1) + (3 # 10) + (3 # 8796093022208))%Q.
Proof.
  intros s Htotal.
  pose proof (reachable_consistent digest calls) as Hs. fold s in Hs.
  destruct (get_analytics_consistent s Hs) as (filled & -> & Hfilled).
  destruct Hs as [Hpos _].
  destruct (six_counters (votes_storage s) (reachable_dom digest calls))
    as (c1 & c2 & c3 & c4 & c5 & c6 & H1 & H2 & H3 & H4 & H5 & H6 & Hsum).
  set (total := sum_values (votes_storage s)) in *.
  assert (∀ k c, votes_storage s !! k = Some c →
            ∃ x, filled !! k = Some (PyFloat (Finite x)) ∧
                 (exact_percentage c total - (1 # 20) - (1 # 17592186044416) <= x)%Q ∧
                 (x <= exact_percentage c total + (1 # 20) + (1 # 17592186044416))%Q)
    as Hitem.
  { intros k c Hk. destruct (sum_values_bounds _ _ _ Hpos Hk) as [Hc0 Hct].
    destruct (percentage_of_spec c total)
      as (x & _ & Hx & _ & _ & _ & _ & Hlo & Hhi); [lia|lia|].
    exists x. split; [apply Hfilled; eauto|]. split; assumption. }
  destruct (Hitem 1 c1 H1) as (x1 & Hx1 & Hlo1 & Hhi1).
  destruct (Hitem 2 c2 H2) as (x2 & Hx2 & Hlo2 & Hhi2).
  destruct (Hitem 3 c3 H3) as (x3 & Hx3 & Hlo3 & Hhi3).
  destruct (Hitem 4 c4 H4) as (x4 & Hx4 & Hlo4 & Hhi4).
  destruct (Hitem 5 c5 H5) as (x5 & Hx5 & Hlo5 & Hhi5).
  destruct (Hitem 6 c6 H6) as (x6 & Hx6 & Hlo6 & Hhi6).
  eexists. exists x1, x2, x3, x4, x5, x6. split; [reflexivity|]. simpl.
  repeat (split; [assumption|]).
  pose proof (exact_percentages_add_up c1 c2 c3 c4 c5 c6 total Htotal
                ltac:(lia)) as Hexact.
  split; lra.
Qed.

End PercentageSum.

Lemma percentages_sum_near_100_witness :
  let calls := [SubmitVote (vote_request "10.0.0.1" (JInt 1) all_follows);
                SubmitVote (vote_request "10.0.0.2" (JInt 2) all_follows);
                SubmitVote (vote_request "10.0.0.3" (JInt 3) all_follows)] in
  let s := state_after sample_digest calls in
  sum_values (votes_storage s) = 3 ∧
  ∃ a x1 x2 x3 x4 x5 x6,
    (get_analytics s).1 = Success (Analytics a) ∧
    vote_percentages a !! 1 = Some (PyFloat (Finite x1)) ∧
    vote_percentages a !! 2 = Some (PyFloat (Finite x2)) ∧
    vote_percentages a !! 3 = Some (PyFloat (Finite x3)) ∧
    vote_percentages a !! 4 = Some (PyFloat (Finite x4)) ∧
    vote_percentages a !! 5 = Some (PyFloat (Finite x5)) ∧
    vote_percentages a !! 6 = Some (PyFloat (Finite x6)) ∧
    ((100 # 1) - (3 # 10) - (3 # 8796093022208)
       <= x1 + x2 + x3 + x4 + x5 + x6)%Q ∧
    (x1 + x2 + x3 + x4 + x5 + x6
       <= (100 # 1) + (3 # 10) + (3 # 8796093022208))%Q.
Proof.
  intros calls s.
  assert (sum_values (votes_storage s) = 3) as Hsum by (vm_compute; reflexivity).
  split; [exact Hsum|].
  apply (percentages_sum_near_100 sample_digest calls). fold s. lia.
Defined.

(** ** Threads *)

Section Threads.

Variable digest : string → string.













End Threads.

(** ** The spreadsheet sink *)

Section SheetsFacts.

Context {credentials client : Type}.
Variable py_str : json → string.

(** X16. [get_google_sheets_client] returns a client only when gspread was
    imported, the credentials path is set, not empty and names an existing
    file, and both library calls succeed; in every other case it returns
    [None] instead of raising.  It prints one line exactly when a library
    call raised, and nothing when the integration is merely not set up. *)
Theorem sheets_client_only_when_configured (w : @sheets_world credentials client) :
  (∀ sheets,
     (get_google_sheets_client w).1 = Some sheets ↔
     GSPREAD_AVAILABLE w = true ∧
     ∃ path creds,
       GOOGLE_SHEETS_CREDENTIALS_PATH w = Some path ∧ path ≠ "" ∧
       path_exists w path = true ∧
       from_service_account_file w path = inr creds ∧
       authorize w creds = inr sheets) ∧
  ((get_google_sheets_client w).2 ≠ [] ↔
   GSPREAD_AVAILABLE w = true ∧
   ∃ path e,
     GOOGLE_SHEETS_CREDENTIALS_PATH w = Some path ∧ path ≠ "" ∧
     path_exists w path = true ∧
     (get_google_sheets_client w).1 = None ∧
     (get_google_sheets_client w).2 =
       [String.append "Error initializing Google Sheets client: " e] ∧
     (from_service_account_file w path = inl e ∨
      ∃ creds, from_service_account_file w path = inr creds ∧
               authorize w creds = inl e)).
Proof.
  unfold get_google_sheets_client.
  destruct (GSPREAD_AVAILABLE w); simpl.
  2: { split; [intros sheets|]; split; try discriminate;
       try (intros [? _]; discriminate); intros H; by destruct H. }
  destruct (GOOGLE_SHEETS_CREDENTIALS_PATH w) as [path|]; simpl.
  2: { split; [intros sheets|]; split; try discriminate.
       - intros (_ & p & c & ? & _). discriminate.
       - intros H; by destruct H.
       - intros (_ & p & e & ? & _). discriminate. }
  destruct (String.eqb_spec path "") as [->|Hpath]; simpl.
  { split; [intros sheets|]; split; try discriminate.
    - intros (_ & p & c & [= <-] & Hp & _). congruence.
    - intros H; by destruct H.
    - intros (_ & p & e & [= <-] & Hp & _). congruence. }
  destruct (path_exists w path) eqn:Hexists; simpl.
  2: { split; [intros sheets|]; split; try discriminate.
       - intros (_ & p & c & [= <-] & _ & ? & _). congruence.
       - intros H; by destruct H.
       - intros (_ & p & e & [= <-] & _ & ? & _). congruence. }
  destruct (from_service_account_file w path) as [e|creds] eqn:Hfile; simpl.
  { split; [intros sheets|]; split; try discriminate.
    - intros (_ & p & c & [= <-] & _ & _ & ? & _). congruence.
    - intros _. split; [reflexivity|]. exists path, e. auto 10. }
  destruct (authorize w creds) as [e|sheets0] eqn:Hauth; simpl.
  { split; [intros sheets|]; split; try discriminate.
    - intros (_ & p & c & [= <-] & _ & _ & Hc & ?). congruence.
    - intros _. split; [reflexivity|]. exists path, e.
      repeat (split; [done|]). right. eauto. }
  split; [intros sheets|]; split.
  - intros [= <-]. split; [reflexivity|]. exists path, creds. auto.
  - intros (_ & p & c & [= <-] & _ & _ & Hc & ?). congruence.
  - intros H; by destruct H.
  - intros (_ & p & e & _ & _ & _ & ? & _). discriminate.
Qed.

Lemma sheets_client_quiet (w : @sheets_world credentials client) sheets :
  (get_google_sheets_client w).1 = Some sheets →
  (get_google_sheets_client w).2 = [].
Proof.
  unfold get_google_sheets_client.
  destruct (negb (GSPREAD_AVAILABLE w)); [discriminate|].
  destruct (GOOGLE_SHEETS_CREDENTIALS_PATH w) as [path|]; [|discriminate].
  destruct (String.eqb path "" || negb (path_exists w path)); [discriminate|].
  destruct (from_service_account_file w path) as [e|creds]; [discriminate|].
  destruct (authorize w creds); [discriminate|reflexivity].
Qed.

Lemma substring_prefix n s :
  String.prefix (String.substring 0 n s) s = true ∧
  (String.length (String.substring 0 n s) ≤ n)%nat.
Proof.
  revert s. induction n as [|n IH]; intros s.
  - destruct s; simpl; split; (reflexivity || lia).
  - destruct s as [|c s]; simpl; [split; [reflexivity|lia]|].
    destruct (IH s) as [Hp Hl]. rewrite Hp.
    destruct (Ascii.ascii_dec c c); [|congruence]. split; [reflexivity|lia].
Qed.

(** X17. [save_vote_to_sheets] never stores the vote: when a client is
    available it prints nothing at all, and without one it ends its output
    with a single 'Vote recorded' line in which the hash appears only
    through a prefix of at most eight characters. *)
Theorem save_vote_only_logs (w : @sheets_world credentials client)
    video_id ip_hash social_follows :
  let printed := save_vote_to_sheets py_str w video_id ip_hash social_follows in
  ((∃ sheets, (get_google_sheets_client w).1 = Some sheets) → printed = []) ∧
  ((get_google_sheets_client w).1 = None →
   ∃ shown,
     String.prefix shown ip_hash = true ∧
     (String.length shown ≤ 8)%nat ∧
     printed = (get_google_sheets_client w).2 ++
       [String.append "Vote recorded: Video "
          (String.append (py_str video_id)
             (String.append ", IP Hash: "
                (String.append shown
                   (String.append "..., Social: " (py_str social_follows)))))]) ∧
  (∀ other, String.substring 0 8 other = String.substring 0 8 ip_hash →
     save_vote_to_sheets py_str w video_id other social_follows = printed).
Proof.
  intros printed. subst printed. unfold save_vote_to_sheets.
  pose proof (sheets_client_quiet w) as Hquiet.
  destruct (get_google_sheets_client w) as [[sheets|] out] eqn:Hclient; simpl in *.
  - split; [|split].
    + intros _. apply (Hquiet sheets). reflexivity.
    + discriminate.
    + reflexivity.
  - split; [intros [? ?]; discriminate|]. split.
    + intros _. exists (String.substring 0 8 ip_hash).
      destruct (substring_prefix 8 ip_hash) as [Hp Hl].
      split; [assumption|]. split; [assumption|]. reflexivity.
    + intros other Hother. unfold vote_recorded_line. by rewrite Hother.
Qed.

End SheetsFacts.
